(** * getent: a wrapper around the unix [getent] utility

    Shallow embedding of [plugins/modules/getent.py] and the properties of
    its exit-code dispatch and of its parsing of the utility's output.

    The module is a straight-line script.  It reads four parameters, asks
    the framework for the path of the [getent] executable, runs it once and
    turns the exit code and the standard output into one call of
    [module.exit_json] or [module.fail_json], both of which end the process.

    Conventions of the embedding:
    - a Python [str] is the list of its code points ([N]);
    - a Python [dict] is an association list in insertion order in which no
      key occurs twice (assignment to a present key replaces the value where
      it stands, assignment to a new key appends);
    - the three ways the script can end ([exit_json], [fail_json], an
      exception nobody catches) are the constructors of [outcome];
    - the framework and the operating system are a record [world]: what
      [get_bin_path] finds and what [run_command] does with a command line;
    - the commands handed to [run_command] are logged, so that "no process
      was spawned" is a statement about the log. *)

From Equations Require Import Equations.
From Stdlib Require Import String Ascii NArith ZArith Bool List Lia.
Import ListNotations.

(* ===================================================================== *)
(** ** Strings *)
(* ===================================================================== *)

Module Str.

(** A character is a code point, a string a sequence of them. *)
Definition char := N.
Definition str := list char.

(** String literals of the script, written as Rocq strings. *)
Definition lit (s : string) : str :=
  map N_of_ascii (list_ascii_of_string s).

Fixpoint eqb (a b : str) : bool :=
  match a, b with
  | [], [] => true
  | x :: a', y :: b' => N.eqb x y && eqb a' b'
  | _, _ => false
  end.

(** [s.startswith(p)]. *)
Fixpoint starts_with (p s : str) : bool :=
  match p, s with
  | [], _ => true
  | x :: p', y :: s' => N.eqb x y && starts_with p' s'
  | _ :: _, [] => false
  end.

(** [sep.join(parts)]. *)
Fixpoint join (sep : str) (parts : list str) : str :=
  match parts with
  | [] => []
  | [p] => p
  | p :: rest => p ++ sep ++ join sep rest
  end.

(** Prepend a character to the first piece of a list of pieces. *)
Definition push_head (c : char) (parts : list str) : list str :=
  match parts with
  | [] => [[c]]
  | p :: rest => (c :: p) :: rest
  end.

(** Line boundaries of [str.splitlines]: LF, VT, FF, CR, FS, GS, RS, NEL,
    LINE SEPARATOR and PARAGRAPH SEPARATOR; CR LF counts as one. *)
Definition LF : char := 10%N.
Definition CR : char := 13%N.

Definition is_linebreak (c : char) : bool :=
  existsb (N.eqb c) [10; 11; 12; 13; 28; 29; 30; 133; 8232; 8233]%N.

(** [s.splitlines()]: the lines of [s] without their terminators.  A
    terminator at the very end does not open a further, empty line. *)
Fixpoint splitlines (s : str) : list str :=
  match s with
  | [] => []
  | c :: s' =>
      if is_linebreak c then
        if N.eqb c CR then
          match s' with
          | c' :: s'' =>
              if N.eqb c' LF then [] :: splitlines s''
              else [] :: splitlines s'
          | [] => [] :: splitlines s'
          end
        else [] :: splitlines s'
      else push_head c (splitlines s')
  end.

(** Whitespace of [str.isspace], which [s.split(None)] splits on. *)
Definition is_space (c : char) : bool :=
  ((9 <=? c) && (c <=? 13) || (28 <=? c) && (c <=? 32)
   || (8192 <=? c) && (c <=? 8202)
   || existsb (N.eqb c) [133; 160; 5760; 8232; 8233; 8239; 8287; 12288])%N.

(** [s.split()] without a separator: the maximal runs of characters that
    are not whitespace; leading, trailing and repeated whitespace yields
    no empty field.  [cur] is the field being read, reversed. *)
Fixpoint split_ws_from (cur : str) (s : str) : list str :=
  match s with
  | [] => match cur with [] => [] | _ => [rev cur] end
  | c :: s' =>
      if is_space c then
        match cur with
        | [] => split_ws_from [] s'
        | _ => rev cur :: split_ws_from [] s'
        end
      else split_ws_from (c :: cur) s'
  end.

Definition split_ws (s : str) : list str := split_ws_from [] s.

(** [s.split(sep)] for a non-empty [sep]: cut at the occurrences of [sep]
    found from left to right, each search resuming after the previous
    occurrence.  There is always at least one field. *)
Equations? split_sep (sep s : str) : list str by wf (length s) lt :=
  split_sep sep [] := [[]];
  split_sep sep (c :: s') with starts_with sep (c :: s') := {
    | true := [] :: split_sep sep (skipn (pred (length sep)) s');
    | false := push_head c (split_sep sep s') }.
Proof.
  pose proof (length_skipn (pred (length sep)) s'). simpl. lia.
Qed.

End Str.

Import Str.

(* ===================================================================== *)
(** ** Python values, dictionaries and exceptions *)
(* ===================================================================== *)

Module Py.

(** Dictionary keys of the script: strings, and [None] when no key was
    given and the missing-key branch stores under it. *)
Inductive dkey :=
| KNone
| KStr (s : str).

Definition dkey_eqb (a b : dkey) : bool :=
  match a, b with
  | KNone, KNone => true
  | KStr s, KStr t => Str.eqb s t
  | _, _ => false
  end.

(** The values the script builds. *)
#[warnings="-register-all"] Inductive value :=
| VNone
| VBool (b : bool)
| VStr (s : str)
| VList (l : list str)
| VDict (d : list (dkey * value)).

Definition dict := list (dkey * value).

(** [d.get(k)]. *)
Fixpoint dict_get (k : dkey) (d : dict) : option value :=
  match d with
  | [] => None
  | (k', v) :: d' => if dkey_eqb k k' then Some v else dict_get k d'
  end.

(** [d[k] = v]: a present key keeps its place, a new key goes last. *)
Fixpoint dict_set (k : dkey) (v : value) (d : dict) : dict :=
  match d with
  | [] => [(k, v)]
  | (k', v') :: d' =>
      if dkey_eqb k k' then (k', v) :: d'
      else (k', v') :: dict_set k v d'
  end.

Definition keys (d : dict) : list dkey := map fst d.

(** How many entries [d] holds under [k]. *)
Definition entries (k : dkey) (d : dict) : nat :=
  List.length (filter (fun e => dkey_eqb k (fst e)) d).

Inductive exn :=
| ValueError
| IndexError
| KeyError
| TypeError.

Inductive result (A : Type) :=
| Ok (a : A)
| Raise (e : exn).
Arguments Ok {A} a.
Arguments Raise {A} e.

Definition bind {A B} (m : result A) (f : A -> result B) : result B :=
  match m with
  | Ok a => f a
  | Raise e => Raise e
  end.

(** [line.split(sep)]: whitespace fields for [None], [ValueError] for the
    empty separator, the pieces between occurrences otherwise. *)
Definition str_split (line : str) (sep : option str) : result (list str) :=
  match sep with
  | None => Ok (split_ws line)
  | Some [] => Raise ValueError
  | Some s => Ok (split_sep s line)
  end.

(** [l[i]]. *)
Definition list_getitem (l : list str) (i : nat) : result str :=
  match nth_error l i with
  | Some x => Ok x
  | None => Raise IndexError
  end.

(** [d[k]]. *)
Definition dict_getitem (d : dict) (k : dkey) : result value :=
  match dict_get k d with
  | Some v => Ok v
  | None => Raise KeyError
  end.

(** [target[k] = v] where [target] is the object found at [results[outer]]:
    the object is changed in place, so [results] sees the change. *)
Definition store_in (results : dict) (outer : dkey) (target : value)
           (k : dkey) (v : value) : result dict :=
  match target with
  | VDict d => Ok (dict_set outer (VDict (dict_set k v d)) results)
  | _ => Raise TypeError
  end.

End Py.

Import Py.

Declare Scope py_scope.
Delimit Scope py_scope with py.
Notation "x <- m ;; k" := (bind m (fun x => k))
  (at level 61, m at next level, right associativity) : py_scope.
Open Scope py_scope.

(* ===================================================================== *)
(** ** The module *)
(* ===================================================================== *)

(** [module.params], after the framework has applied [argument_spec]. *)
Record params := {
  database : str;
  key : option str;
  split : option str;
  fail_key : bool
}.

(** An exception raised by [run_command]: what [to_native(e)] and
    [traceback.format_exc()] print for it. *)
Record exc_info := {
  exc_text : str;
  exc_traceback : str
}.

(** [module.get_bin_path(name, True)] returns the path, or ends the module
    through [fail_json] with the framework's message for a missing
    executable. *)
Inductive bin_lookup :=
| BinFound (path : str)
| BinMissing (msg : str).

(** [module.run_command(cmd)] returns [(rc, out, err)] or raises. *)
Inductive run_result :=
| Ran (rc : Z) (out err : str)
| RunRaised (e : exc_info).

Record world := {
  get_bin_path : str -> bin_lookup;
  run_command : list str -> run_result
}.

(** How the script ends. *)
Inductive outcome :=
| ExitJson (kwargs : dict)
| FailJson (kwargs : dict)
| Uncaught (e : exn).

Definition colon : list str :=
  [lit "passwd"; lit "shadow"; lit "group"; lit "gshadow"].

(** [x in l] for a list of strings. *)
Definition str_in (x : str) (l : list str) : bool := existsb (Str.eqb x) l.

Definition is_none {A} (o : option A) : bool :=
  match o with None => true | Some _ => false end.

(** The command line (lines 113-116). *)
Definition cmd_of (getent_bin : str) (p : params) : list str :=
  match key p with
  | Some k => [getent_bin; database p; k]
  | None => [getent_bin; database p]
  end.

(** The value of [split] after lines 118-119. *)
Definition effective_split (p : params) : option str :=
  if is_none (split p) && str_in (database p) colon then Some (lit ":")
  else split p.

(** ['getent_%s' % database]. *)
Definition dbtree_of (db : str) : str := lit "getent_" ++ db.

Definition k_collection : dkey := KStr (lit "collection").
Definition k_msg : dkey := KStr (lit "msg").
Definition k_exception : dkey := KStr (lit "exception").
Definition k_results : dkey := KStr (lit "results").

(** [{'collection': True, dbtree: {}}] (line 128). *)
Definition initial_results (dbtree : str) : dict :=
  dict_set (KStr dbtree) (VDict []) (dict_set k_collection (VBool true) []).

(** One turn of the loop (lines 132-133).  The right-hand side
    [record[1:]] is evaluated first, then [results[dbtree]], then
    [record[0]]. *)
Definition parse_line (sep : option str) (dbtree : str) (line : str)
           (results : dict) : result dict :=
  record <- str_split line sep ;;
  let rhs := VList (skipn 1 record) in
  target <- dict_getitem results (KStr dbtree) ;;
  k <- list_getitem record 0 ;;
  store_in results (KStr dbtree) target (KStr k) rhs.

(** The loop over [out.splitlines()] (lines 131-133). *)
Fixpoint parse_lines (sep : option str) (dbtree : str) (lines : list str)
         (results : dict) : result dict :=
  match lines with
  | [] => Ok results
  | line :: rest =>
      results' <- parse_line sep dbtree line results ;;
      parse_lines sep dbtree rest results'
  end.

(** [results[dbtree][key] = None] (line 142). *)
Definition store_missing (dbtree : str) (k : option str) (results : dict)
  : result dict :=
  target <- dict_getitem results (KStr dbtree) ;;
  store_in results (KStr dbtree) target
           (match k with Some s => KStr s | None => KNone end) VNone.

Definition msg_unexpected : str := lit "Unexpected failure!".
Definition msg_missing_args : str := lit "Missing arguments, or database unknown.".
Definition msg_key_not_found : str :=
  lit "One or more supplied key could not be found in the database.".
Definition msg_no_enumeration : str :=
  lit "Enumeration not supported on this database.".

Definition ended (r : result dict) (k : dict -> outcome) : outcome :=
  match r with
  | Ok d => k d
  | Raise e => Uncaught e
  end.

(** Lines 126-147.  A branch either ends the module ([inl]) or leaves [msg]
    set for the [fail_json] of the last line ([inr]). *)
Definition dispatch (p : params) (rc : Z) (out : str) : outcome :=
  let msg := msg_unexpected in
  let dbtree := dbtree_of (database p) in
  let results := initial_results dbtree in
  let branch : outcome + str :=
    if (rc =? 0)%Z then
      inl (ended (parse_lines (effective_split p) dbtree (splitlines out) results)
                 (fun results => ExitJson results))
    else if (rc =? 1)%Z then
      inr msg_missing_args
    else if (rc =? 2)%Z then
      let msg := msg_key_not_found in
      if negb (fail_key p) then
        inl (ended (store_missing dbtree (key p) results)
                   (fun results =>
                      ExitJson [(k_results, VDict results); (k_msg, VStr msg)]))
      else inr msg
    else if (rc =? 3)%Z then
      inr msg_no_enumeration
    else inr msg
  in
  match branch with
  | inl o => o
  | inr msg => FailJson [(k_msg, VStr msg)]
  end.

(** The whole script.  The first component is the list of the command lines
    given to [run_command], in order. *)
Definition main (p : params) (w : world) : list (list str) * outcome :=
  match get_bin_path w (lit "getent") with
  | BinMissing m => ([], FailJson [(k_msg, VStr m)])
  | BinFound getent_bin =>
      let cmd := cmd_of getent_bin p in
      match run_command w cmd with
      | RunRaised e =>
          ([cmd], FailJson [(k_msg, VStr (exc_text e));
                            (k_exception, VStr (exc_traceback e))])
      | Ran rc out _ => ([cmd], dispatch p rc out)
      end
  end.

Definition spawned (p : params) (w : world) : list (list str) := fst (main p w).
Definition result_of (p : params) (w : world) : outcome := snd (main p w).

(** The parsing of the success path, said without the nesting: the record
    of a line is its first field and the fields after it; the mapping is
    what storing the records one after the other leaves. *)
Definition record_of (sep : option str) (line : str) : result (str * list str) :=
  record <- str_split line sep ;;
  k <- list_getitem record 0 ;;
  Ok (k, skipn 1 record).

Fixpoint records_of (sep : option str) (lines : list str)
  : result (list (str * list str)) :=
  match lines with
  | [] => Ok []
  | line :: rest =>
      r <- record_of sep line ;;
      rs <- records_of sep rest ;;
      Ok (r :: rs)
  end.

(** The record of a line cut at an explicit separator. *)
Definition fields_of (sep line : str) : str * list str :=
  (hd [] (split_sep sep line), tl (split_sep sep line)).

Definition entry_of (r : str * list str) : dkey * value :=
  (KStr (fst r), VList (snd r)).

Definition insert_records (recs : list (str * list str)) (m : dict) : dict :=
  fold_left (fun m r => dict_set (KStr (fst r)) (VList (snd r)) m) recs m.

(** Standard output as the utility writes it: every line ends in LF. *)
Definition unlines (lines : list str) : str :=
  concat (map (fun l => l ++ [LF]) lines).

Definition no_linebreak (l : str) : bool := forallb (fun c => negb (is_linebreak c)) l.

Definition dkey_of (k : option str) : dkey :=
  match k with Some s => KStr s | None => KNone end.

Definition with_fail_key (b : bool) (p : params) : params :=
  {| database := database p; key := key p; split := split p; fail_key := b |}.

(** A world in which the executable lookup and the run are fixed. *)
Definition fixed_world (b : bin_lookup) (r : run_result) : world :=
  {| get_bin_path := fun _ => b; run_command := fun _ => r |}.

(** The keys of a sequence in the order in which they are first met;
    [seen] are the keys met before. *)
Fixpoint first_seen (seen l : list dkey) : list dkey :=
  match l with
  | [] => []
  | k :: l' =>
      if existsb (dkey_eqb k) seen then first_seen seen l'
      else k :: first_seen (k :: seen) l'
  end.

(** How often the character [c] occurs in [s]. *)
Definition count_char (c : char) (s : str) : nat :=
  List.length (filter (N.eqb c) s).

(** A line of nothing but whitespace (the empty line included). *)
Definition is_blank (l : str) : bool := forallb is_space l.

Definition no_space (f : str) : bool := forallb (fun c => negb (is_space c)) f.

(** A record written the way the utility prints it. *)
Definition format_record (sep : str) (r : str * list str) : str :=
  join sep (fst r :: snd r).

(** The fields of an entry that the loop stored: the key and the values. *)
Definition entry_fields (e : dkey * value) : list str :=
  match e with
  | (KStr k, VList vs) => k :: vs
  | _ => []
  end.

Definition is_record_entry (e : dkey * value) : bool :=
  match e with
  | (KStr _, VList _) => true
  | _ => false
  end.

(** The record of a line under the whitespace rule. *)
Definition ws_fields_of (line : str) : str * list str :=
  (hd [] (split_ws line), tl (split_ws line)).

(* ===================================================================== *)
(** ** Strings: equality, splitting and joining *)
(* ===================================================================== *)

Section StrFacts.

Lemma eqb_eq (a b : str) : Str.eqb a b = true <-> a = b.
Proof.
  revert b. induction a as [|x a IH]; intros [|y b]; simpl;
    try (split; [discriminate | discriminate]); try tauto.
  rewrite andb_true_iff, N.eqb_eq, IH. split.
  - intros [-> ->]. reflexivity.
  - intros H. injection H as -> ->. split; reflexivity.
Qed.

Lemma eqb_refl (a : str) : Str.eqb a a = true.
Proof. apply eqb_eq. reflexivity. Qed.

Lemma eqb_neq (a b : str) : Str.eqb a b = false <-> a <> b.
Proof.
  rewrite <- eqb_eq. destruct (Str.eqb a b); split; congruence.
Qed.

Lemma str_in_In (x : str) (l : list str) : str_in x l = true <-> In x l.
Proof.
  unfold str_in. rewrite existsb_exists. split.
  - intros [y [Hin Heq]]. apply eqb_eq in Heq. subst. assumption.
  - intros Hin. exists x. split; [assumption | apply eqb_refl].
Qed.

Lemma starts_with_skipn (p s : str) :
  starts_with p s = true -> s = p ++ skipn (List.length p) s.
Proof.
  revert s. induction p as [|x p IH]; intros s H; simpl in *.
  - reflexivity.
  - destruct s as [|y s]; [discriminate|].
    apply andb_true_iff in H. destruct H as [Hxy Hp].
    apply N.eqb_eq in Hxy. subst y. simpl. f_equal. apply IH, Hp.
Qed.

Lemma join_cons (sep p : str) (rest : list str) :
  rest <> [] -> join sep (p :: rest) = p ++ sep ++ join sep rest.
Proof. destruct rest; [congruence | reflexivity]. Qed.

Lemma join_push_head (sep : str) (c : char) (parts : list str) :
  parts <> [] -> join sep (push_head c parts) = c :: join sep parts.
Proof.
  destruct parts as [|p [|q r]]; [congruence | reflexivity | reflexivity].
Qed.

Lemma push_head_nonempty (c : char) (parts : list str) : push_head c parts <> [].
Proof. destruct parts; discriminate. Qed.

(** [s.split(sep)] never returns the empty list. *)
Lemma split_sep_nonempty (sep s : str) : split_sep sep s <> [].
Proof.
  funelim (split_sep sep s).
  - discriminate.
  - discriminate.
  - apply push_head_nonempty.
Qed.

(** Joining the pieces with the separator gives the string back. *)
Lemma join_split_sep (sep s : str) : sep <> [] -> join sep (split_sep sep s) = s.
Proof.
  intros Hsep. funelim (split_sep sep s).
  - reflexivity.
  - rewrite join_cons by apply split_sep_nonempty.
    rewrite H by assumption. simpl.
    destruct sep as [|x sep']; [congruence|].
    simpl in Heq. apply andb_true_iff in Heq. destruct Heq as [Hx Hp].
    apply N.eqb_eq in Hx. subst x. simpl. f_equal.
    symmetry. apply starts_with_skipn, Hp.
  - rewrite join_push_head by apply split_sep_nonempty.
    rewrite H by assumption. reflexivity.
Qed.

Lemma splitlines_line (l rest : str) :
  no_linebreak l = true -> splitlines (l ++ LF :: rest) = l :: splitlines rest.
Proof.
  induction l as [|c l IH]; intros H.
  - reflexivity.
  - simpl in H. apply andb_true_iff in H. destruct H as [Hc Hl].
    apply negb_true_iff in Hc.
    change ((c :: l) ++ LF :: rest) with (c :: (l ++ LF :: rest)).
    cbn [splitlines]. rewrite Hc, (IH Hl). reflexivity.
Qed.

(** LF-terminated lines are read back as they were written; the last
    terminator opens no further line. *)
Lemma splitlines_unlines (lines : list str) :
  Forall (fun l => no_linebreak l = true) lines ->
  splitlines (unlines lines) = lines.
Proof.
  induction 1 as [|l lines Hl _ IH]; [reflexivity|].
  unfold unlines in *. simpl. rewrite <- app_assoc. simpl.
  rewrite (splitlines_line _ _ Hl), IH. reflexivity.
Qed.

End StrFacts.

(* ===================================================================== *)
(** ** Dictionaries *)
(* ===================================================================== *)

Section DictFacts.

Lemma dkey_eqb_eq (a b : dkey) : dkey_eqb a b = true <-> a = b.
Proof.
  destruct a as [|s], b as [|t]; simpl; try (split; congruence).
  rewrite eqb_eq. split; congruence.
Qed.

Lemma dkey_eqb_refl (a : dkey) : dkey_eqb a a = true.
Proof. apply dkey_eqb_eq. reflexivity. Qed.

Lemma dkey_eqb_neq (a b : dkey) : dkey_eqb a b = false <-> a <> b.
Proof.
  rewrite <- dkey_eqb_eq. destruct (dkey_eqb a b); split; congruence.
Qed.

Ltac key_cases a b :=
  let E := fresh "E" in
  destruct (dkey_eqb a b) eqn:E;
  [apply dkey_eqb_eq in E; try subst | apply dkey_eqb_neq in E].

Lemma dict_get_set_same (k : dkey) (v : value) (d : dict) :
  dict_get k (dict_set k v d) = Some v.
Proof.
  induction d as [|[k' v'] d IH]; simpl.
  - rewrite dkey_eqb_refl. reflexivity.
  - destruct (dkey_eqb k k') eqn:E; simpl; rewrite E; [reflexivity | exact IH].
Qed.

Lemma dict_get_set_other (k k' : dkey) (v : value) (d : dict) :
  k <> k' -> dict_get k' (dict_set k v d) = dict_get k' d.
Proof.
  intros Hne. pose proof (proj2 (dkey_eqb_neq k' k) (not_eq_sym Hne)) as Hf.
  induction d as [|[k0 v0] d IH]; simpl.
  - rewrite Hf. reflexivity.
  - key_cases k k0; simpl.
    + rewrite Hf. reflexivity.
    + rewrite IH. reflexivity.
Qed.

(** Storing what is already there changes nothing. *)
Lemma dict_set_same_value (k : dkey) (v : value) (d : dict) :
  dict_get k d = Some v -> dict_set k v d = d.
Proof.
  induction d as [|[k0 v0] d IH]; simpl; [discriminate|].
  destruct (dkey_eqb k k0); intros H.
  - congruence.
  - rewrite (IH H). reflexivity.
Qed.

Lemma dict_set_twice (k : dkey) (v1 v2 : value) (d : dict) :
  dict_set k v2 (dict_set k v1 d) = dict_set k v2 d.
Proof.
  induction d as [|[k0 v0] d IH]; simpl.
  - rewrite dkey_eqb_refl. reflexivity.
  - destruct (dkey_eqb k k0) eqn:E; simpl; rewrite E; [reflexivity|].
    rewrite IH. reflexivity.
Qed.

Lemma dict_get_None (k : dkey) (d : dict) :
  dict_get k d = None <-> ~ In k (keys d).
Proof.
  induction d as [|[k0 v0] d IH]; simpl; [tauto|].
  key_cases k k0.
  - split; [discriminate | tauto].
  - rewrite IH. split; [intros H [H1|H1]; congruence | tauto].
Qed.

(** A new key is appended. *)
Lemma dict_set_absent (k : dkey) (v : value) (d : dict) :
  ~ In k (keys d) -> dict_set k v d = d ++ [(k, v)].
Proof.
  induction d as [|[k0 v0] d IH]; simpl; intros H; [reflexivity|].
  key_cases k k0; [tauto|].
  rewrite IH by tauto. reflexivity.
Qed.

(** A present key keeps its place: the keys are as before. *)
Lemma keys_set_present (k : dkey) (v : value) (d : dict) :
  In k (keys d) -> keys (dict_set k v d) = keys d.
Proof.
  induction d as [|[k0 v0] d IH]; simpl; intros H; [tauto|].
  key_cases k k0; simpl; [reflexivity|].
  f_equal. apply IH. destruct H; congruence.
Qed.

Lemma dkey_eq_dec (a b : dkey) : {a = b} + {a <> b}.
Proof.
  destruct (dkey_eqb a b) eqn:E.
  - left. apply dkey_eqb_eq, E.
  - right. apply dkey_eqb_neq, E.
Defined.

Lemma keys_set (k : dkey) (v : value) (d : dict) :
  keys (dict_set k v d) = keys d
  \/ (~ In k (keys d) /\ keys (dict_set k v d) = keys d ++ [k]).
Proof.
  destruct (in_dec dkey_eq_dec k (keys d)) as [Hin|Hout].
  - left. apply keys_set_present, Hin.
  - right. split; [assumption|].
    rewrite dict_set_absent by assumption. unfold keys. rewrite map_app. reflexivity.
Qed.

Lemma keys_set_in (k : dkey) (v : value) (d : dict) : In k (keys (dict_set k v d)).
Proof.
  destruct (in_dec dkey_eq_dec k (keys (dict_set k v d))) as [Hin|Hout]; [assumption|].
  apply dict_get_None in Hout. rewrite dict_get_set_same in Hout. discriminate.
Qed.

(** Assignment never makes a key occur twice. *)
Lemma keys_set_NoDup (k : dkey) (v : value) (d : dict) :
  NoDup (keys d) -> NoDup (keys (dict_set k v d)).
Proof.
  intros Hnd. destruct (keys_set k v d) as [-> | [Hout ->]]; [assumption|].
  apply NoDup_app; [assumption | repeat constructor; simpl; tauto |].
  intros x Hx [<- | []]. tauto.
Qed.

(** In a dictionary without repeated keys a present key has one entry. *)
Lemma entries_NoDup (k : dkey) (d : dict) :
  NoDup (keys d) -> In k (keys d) -> entries k d = 1.
Proof.
  unfold entries. induction d as [|[k0 v0] d IH]; simpl; intros Hnd Hin; [tauto|].
  inversion Hnd as [|? ? Hk0 Hnd']; subst.
  key_cases k k0; simpl.
  - f_equal. clear IH Hin Hnd Hnd'. induction d as [|[k1 v1] d IH]; [reflexivity|].
    simpl in *. key_cases k0 k1; [tauto|]. apply IH. tauto.
  - apply IH; [assumption|]. destruct Hin; congruence.
Qed.

End DictFacts.

(* ===================================================================== *)
(** ** The parsing loop *)
(* ===================================================================== *)

Section ParseFacts.

Lemma insert_records_app (r1 r2 : list (str * list str)) (m : dict) :
  insert_records (r1 ++ r2) m = insert_records r2 (insert_records r1 m).
Proof. unfold insert_records. apply fold_left_app. Qed.

Lemma insert_records_NoDup (recs : list (str * list str)) (m : dict) :
  NoDup (keys m) -> NoDup (keys (insert_records recs m)).
Proof.
  revert m. induction recs as [|r recs IH]; intros m H; simpl; [assumption|].
  apply IH, keys_set_NoDup, H.
Qed.

Lemma insert_records_keeps (recs : list (str * list str)) (m : dict) (k : dkey) :
  In k (keys m) -> In k (keys (insert_records recs m)).
Proof.
  revert m. induction recs as [|r recs IH]; intros m H; simpl; [assumption|].
  apply IH. destruct (keys_set (KStr (fst r)) (VList (snd r)) m) as [-> | [_ ->]];
    [assumption | apply in_or_app; left; assumption].
Qed.

(** Records under other keys leave the entry of [k] alone. *)
Lemma insert_records_other (recs : list (str * list str)) (m : dict) (k : str) :
  (forall r, In r recs -> fst r <> k) ->
  dict_get (KStr k) (insert_records recs m) = dict_get (KStr k) m.
Proof.
  revert m. induction recs as [|r recs IH]; intros m H; simpl; [reflexivity|].
  rewrite IH by (intros r' Hr'; apply H; right; assumption).
  apply dict_get_set_other. intros E. injection E as E.
  apply (H r); [left; reflexivity | assumption].
Qed.

(** The entry of a key is the one of the last record that carries it. *)
Lemma insert_records_last (pre post : list (str * list str)) (r : str * list str)
      (m : dict) :
  (forall r', In r' post -> fst r' <> fst r) ->
  dict_get (KStr (fst r)) (insert_records (pre ++ r :: post) m) = Some (VList (snd r)).
Proof.
  intros H. rewrite insert_records_app. simpl.
  change (fold_left _ post ?d) with (insert_records post d).
  rewrite insert_records_other by assumption.
  apply dict_get_set_same.
Qed.

Lemma insert_records_in (pre post : list (str * list str)) (r : str * list str)
      (m : dict) :
  In (KStr (fst r)) (keys (insert_records (pre ++ r :: post) m)).
Proof.
  rewrite insert_records_app. simpl.
  change (fold_left _ post ?d) with (insert_records post d).
  apply insert_records_keeps, keys_set_in.
Qed.

(** Without repeated first fields the records are appended in order. *)
Lemma insert_records_distinct (recs : list (str * list str)) (m : dict) :
  NoDup (map fst recs) ->
  (forall r, In r recs -> ~ In (KStr (fst r)) (keys m)) ->
  insert_records recs m = m ++ map entry_of recs.
Proof.
  revert m. induction recs as [|r recs IH]; intros m Hnd Hm; simpl.
  - rewrite app_nil_r. reflexivity.
  - inversion Hnd as [|? ? Hr Hnd']; subst.
    change (fold_left _ recs ?d) with (insert_records recs d).
    rewrite dict_set_absent by (apply Hm; left; reflexivity).
    rewrite IH; [rewrite <- app_assoc; reflexivity | assumption |].
    intros r' Hr'. unfold keys. rewrite map_app, in_app_iff. simpl.
    intros [Hin | [E | []]].
    + apply (Hm r'); [right; assumption | exact Hin].
    + injection E as E. apply Hr. rewrite E. apply in_map, Hr'.
Qed.

(** One turn of the loop stores one record in the nested mapping. *)
Lemma parse_line_spec (sep : option str) (dbtree line : str) (results m : dict) :
  dict_get (KStr dbtree) results = Some (VDict m) ->
  parse_line sep dbtree line results =
  (r <- record_of sep line ;;
   Ok (dict_set (KStr dbtree) (VDict (dict_set (KStr (fst r)) (VList (snd r)) m)) results)).
Proof.
  intros Hm. unfold parse_line, record_of, dict_getitem. rewrite Hm.
  destruct (str_split line sep) as [record|e]; simpl; [|reflexivity].
  destruct (list_getitem record 0); reflexivity.
Qed.

(** The loop, which changes the mapping nested in [results], stores the
    records of the lines into that mapping and touches nothing else. *)
Lemma parse_lines_spec (sep : option str) (dbtree : str) (lines : list str)
      (results m : dict) :
  dict_get (KStr dbtree) results = Some (VDict m) ->
  parse_lines sep dbtree lines results =
  (recs <- records_of sep lines ;;
   Ok (dict_set (KStr dbtree) (VDict (insert_records recs m)) results)).
Proof.
  revert results m. induction lines as [|line rest IH]; intros results m Hm; simpl.
  - rewrite dict_set_same_value by assumption. reflexivity.
  - rewrite (parse_line_spec sep dbtree line results m Hm).
    destruct (record_of sep line) as [r|e]; simpl; [|reflexivity].
    rewrite (IH _ (dict_set (KStr (fst r)) (VList (snd r)) m))
      by apply dict_get_set_same.
    destruct (records_of sep rest) as [rs|e]; simpl; [|reflexivity].
    rewrite dict_set_twice. reflexivity.
Qed.

Lemma dbtree_not_collection (db : str) :
  dkey_eqb (KStr (dbtree_of db)) k_collection = false.
Proof. reflexivity. Qed.

Lemma initial_results_eq (db : str) :
  initial_results (dbtree_of db) =
  [(k_collection, VBool true); (KStr (dbtree_of db), VDict [])].
Proof. reflexivity. Qed.

(** The success path in one equation. *)
Lemma parse_initial (sep : option str) (db : str) (lines : list str) :
  parse_lines sep (dbtree_of db) lines (initial_results (dbtree_of db)) =
  (recs <- records_of sep lines ;;
   Ok [(k_collection, VBool true);
       (KStr (dbtree_of db), VDict (insert_records recs []))]).
Proof.
  rewrite parse_lines_spec with (m := []).
  - destruct (records_of sep lines) as [recs|e]; [|reflexivity].
    rewrite initial_results_eq. cbn [bind dict_set].
    rewrite dbtree_not_collection, dkey_eqb_refl. reflexivity.
  - rewrite initial_results_eq. cbn [dict_get].
    rewrite dbtree_not_collection, dkey_eqb_refl. reflexivity.
Qed.

Lemma record_of_inv (sep : option str) (line : str) (r : str * list str) :
  record_of sep line = Ok r <-> str_split line sep = Ok (fst r :: snd r).
Proof.
  unfold record_of. destruct (str_split line sep) as [record|e]; simpl.
  - destruct record as [|f fs]; simpl.
    + split; discriminate.
    + destruct r as [k vs]. simpl. split; intros H; injection H as -> ->; reflexivity.
  - split; discriminate.
Qed.

Lemma records_of_app (sep : option str) (l1 l2 : list str) :
  records_of sep (l1 ++ l2) =
  (r1 <- records_of sep l1 ;; r2 <- records_of sep l2 ;; Ok (r1 ++ r2)).
Proof.
  induction l1 as [|l l1 IH]; simpl.
  - destruct (records_of sep l2); reflexivity.
  - destruct (record_of sep l) as [r|e]; simpl; [|reflexivity].
    rewrite IH. destruct (records_of sep l1) as [r1|e]; simpl; [|reflexivity].
    destruct (records_of sep l2); reflexivity.
Qed.

(** The loop runs to its end exactly when every line has a first field. *)
Lemma records_of_total (sep : option str) (lines : list str) :
  Forall (fun l => exists f fs, str_split l sep = Ok (f :: fs)) lines ->
  exists recs, records_of sep lines = Ok recs.
Proof.
  induction 1 as [|l lines [f [fs Hl]] _ [recs IH]]; simpl.
  - exists []. reflexivity.
  - rewrite (proj2 (record_of_inv sep l (f, fs)) Hl), IH. simpl.
    eexists. reflexivity.
Qed.

Lemma records_of_In (sep : option str) (lines : list str) (recs : list (str * list str))
      (r : str * list str) :
  records_of sep lines = Ok recs -> In r recs ->
  exists l, In l lines /\ str_split l sep = Ok (fst r :: snd r).
Proof.
  revert recs. induction lines as [|l lines IH]; intros recs; simpl.
  - intros H. injection H as <-. intros [].
  - destruct (record_of sep l) as [r0|e] eqn:E0; simpl; [|discriminate].
    destruct (records_of sep lines) as [rs|e]; simpl; [|discriminate].
    intros H. injection H as <-. intros [<- | Hin].
    + exists l. split; [left; reflexivity | apply record_of_inv, E0].
    + destruct (IH rs eq_refl Hin) as [l' [Hl' Hs]].
      exists l'. split; [right; assumption | assumption].
Qed.

(** With an explicit separator every line has a record. *)
Lemma records_of_sep (sep : str) (lines : list str) :
  sep <> [] -> records_of (Some sep) lines = Ok (map (fields_of sep) lines).
Proof.
  intros Hsep. induction lines as [|l lines IH]; simpl; [reflexivity|].
  rewrite IH. unfold record_of, str_split, fields_of.
  destruct sep as [|c sep']; [congruence|].
  pose proof (split_sep_nonempty (c :: sep') l) as Hne.
  destruct (split_sep (c :: sep') l) as [|f fs]; [congruence|]. reflexivity.
Qed.

Lemma fields_of_join (sep line : str) :
  sep <> [] -> join sep (fst (fields_of sep line) :: snd (fields_of sep line)) = line.
Proof.
  intros Hsep. unfold fields_of. simpl.
  pose proof (split_sep_nonempty sep line) as Hne.
  pose proof (join_split_sep sep line Hsep) as Hj.
  destruct (split_sep sep line) as [|f fs]; [congruence|]. exact Hj.
Qed.

End ParseFacts.

(* ===================================================================== *)
(** ** The exit-code dispatch *)
(* ===================================================================== *)

Section DispatchFacts.

Variables (p : params) (w : world) (path : str).
Hypothesis Hbin : get_bin_path w (lit "getent") = BinFound path.

Lemma main_ran (rc : Z) (out err : str) :
  run_command w (cmd_of path p) = Ran rc out err ->
  main p w = ([cmd_of path p], dispatch p rc out).
Proof. intros Hrun. unfold main. rewrite Hbin, Hrun. reflexivity. Qed.

Lemma main_raised (e : exc_info) :
  run_command w (cmd_of path p) = RunRaised e ->
  main p w = ([cmd_of path p],
              FailJson [(k_msg, VStr (exc_text e)); (k_exception, VStr (exc_traceback e))]).
Proof. intros Hrun. unfold main. rewrite Hbin, Hrun. reflexivity. Qed.

End DispatchFacts.

Lemma store_missing_initial (db : str) (k : option str) :
  store_missing (dbtree_of db) k (initial_results (dbtree_of db)) =
  Ok [(k_collection, VBool true); (KStr (dbtree_of db), VDict [(dkey_of k, VNone)])].
Proof.
  unfold store_missing, dict_getitem. rewrite initial_results_eq.
  cbn [dict_get]. rewrite dbtree_not_collection, dkey_eqb_refl.
  cbn [bind store_in dict_set]. rewrite dbtree_not_collection, dkey_eqb_refl.
  reflexivity.
Qed.

Lemma dispatch_0 (p : params) (out : str) :
  dispatch p 0 out =
  match records_of (effective_split p) (splitlines out) with
  | Ok recs => ExitJson [(k_collection, VBool true);
                         (KStr (dbtree_of (database p)), VDict (insert_records recs []))]
  | Raise e => Uncaught e
  end.
Proof.
  unfold dispatch. cbn [Z.eqb]. rewrite parse_initial.
  destruct (records_of (effective_split p) (splitlines out)); reflexivity.
Qed.

Lemma dispatch_2 (p : params) (out : str) :
  dispatch p 2 out =
  if fail_key p then FailJson [(k_msg, VStr msg_key_not_found)]
  else ExitJson [(k_results,
                  VDict [(k_collection, VBool true);
                         (KStr (dbtree_of (database p)), VDict [(dkey_of (key p), VNone)])]);
                 (k_msg, VStr msg_key_not_found)].
Proof.
  unfold dispatch. cbn [Z.eqb Pos.eqb]. rewrite store_missing_initial.
  destruct (fail_key p); reflexivity.
Qed.

Lemma dispatch_failure (p : params) (rc : Z) (out : str) :
  rc <> 0%Z -> rc <> 2%Z ->
  dispatch p rc out =
  FailJson [(k_msg, VStr (if (rc =? 1)%Z then msg_missing_args
                          else if (rc =? 3)%Z then msg_no_enumeration
                          else msg_unexpected))].
Proof.
  intros H0 H2. unfold dispatch.
  apply Z.eqb_neq in H0. apply Z.eqb_neq in H2. rewrite H0, H2.
  destruct (rc =? 1)%Z; [reflexivity|].
  destruct (rc =? 3)%Z; reflexivity.
Qed.

(* ===================================================================== *)
(** ** The built-ins and the loop on small inputs *)
(* ===================================================================== *)

Example splitlines_blank_line :
  splitlines (lit "a:b" ++ [LF; LF] ++ lit "c" ++ [CR; LF]) = [lit "a:b"; []; lit "c"].
Proof. reflexivity. Qed.

Example splitlines_only_terminator : splitlines [LF] = [[]].
Proof. reflexivity. Qed.

Example split_sep_two_characters :
  split_sep (lit "aa") (lit "aaa:") = [lit ""; lit "a:"].
Proof. reflexivity. Qed.

Example split_sep_empty_fields :
  split_sep (lit ":") (lit "a::b:") = [lit "a"; lit ""; lit "b"; lit ""].
Proof. reflexivity. Qed.

Example split_ws_runs : split_ws (lit "  a  b ") = [lit "a"; lit "b"].
Proof. reflexivity. Qed.

(** A line of whitespace has no field under the whitespace rule, and
    [record[0]] raises. *)
Example record_of_blank_line : record_of None (lit "  ") = Raise IndexError.
Proof. reflexivity. Qed.

(** [split: ''] makes [line.split] raise as soon as there is a line. *)
Example record_of_empty_separator : record_of (Some []) (lit "a:b") = Raise ValueError.
Proof. reflexivity. Qed.

(** A blank line between records, on the whitespace path, ends the module
    with the exception. *)
Example blank_line_uncaught :
  result_of {| database := lit "hosts"; key := None; split := None; fail_key := true |}
            (fixed_world (BinFound (lit "/usr/bin/getent"))
                         (Ran 0 (lit "10.0.0.1 gw" ++ [LF; LF]) []))
  = Uncaught IndexError.
Proof. reflexivity. Qed.

(** On the ":" path the same blank line is a record with the empty key. *)
Example blank_line_colon :
  result_of {| database := lit "group"; key := None; split := None; fail_key := true |}
            (fixed_world (BinFound (lit "/usr/bin/getent"))
                         (Ran 0 (lit "wheel:x" ++ [LF; LF]) []))
  = ExitJson [(k_collection, VBool true);
              (KStr (lit "getent_group"),
               VDict [(KStr (lit "wheel"), VList [lit "x"]); (KStr [], VList [])])].
Proof. reflexivity. Qed.

(* ===================================================================== *)
(** ** Properties of the module *)
(* ===================================================================== *)

(** C1. When [getent] exits with code 2 and [fail_key] is false the module
    ends through [exit_json], not through [fail_json] or an exception: the
    payload holds, under [results], the mapping [getent_<database>] in which
    the queried key is mapped to [None], and a [msg] that is not empty. *)
Theorem exit2_tolerated_succeeds (p : params) (w : world) (path out err : str) :
  get_bin_path w (lit "getent") = BinFound path ->
  run_command w (cmd_of path p) = Ran 2 out err ->
  fail_key p = false ->
  let tree := [(dkey_of (key p), VNone)] in
  let results := [(k_collection, VBool true);
                  (KStr (dbtree_of (database p)), VDict tree)] in
  result_of p w = ExitJson [(k_results, VDict results); (k_msg, VStr msg_key_not_found)]
  /\ dict_get (KStr (dbtree_of (database p))) results = Some (VDict tree)
  /\ dict_get (dkey_of (key p)) tree = Some VNone
  /\ msg_key_not_found <> [].
Proof.
  intros Hbin Hrun Hfk tree results. repeat split.
  - unfold result_of. rewrite (main_ran p w path Hbin _ _ _ Hrun). cbn [snd].
    rewrite dispatch_2, Hfk. reflexivity.
  - unfold results. cbn [dict_get].
    rewrite dbtree_not_collection, dkey_eqb_refl. reflexivity.
  - unfold tree. cbn [dict_get]. rewrite dkey_eqb_refl. reflexivity.
  - discriminate.
Qed.

(** The scenario of the documentation: [services], key [http], absent. *)
Lemma exit2_tolerated_succeeds_witness :
  result_of {| database := lit "services"; key := Some (lit "http");
               split := None; fail_key := false |}
            (fixed_world (BinFound (lit "/usr/bin/getent")) (Ran 2 [] []))
  = ExitJson [(k_results,
               VDict [(k_collection, VBool true);
                      (KStr (lit "getent_services"), VDict [(KStr (lit "http"), VNone)])]);
              (k_msg, VStr msg_key_not_found)].
Proof.
  exact (proj1 (exit2_tolerated_succeeds
                  {| database := lit "services"; key := Some (lit "http");
                     split := None; fail_key := false |}
                  (fixed_world (BinFound (lit "/usr/bin/getent")) (Ran 2 [] []))
                  (lit "/usr/bin/getent") [] [] eq_refl eq_refl eq_refl)).
Defined.

(** C2. When [getent] exits with code 2 and [fail_key] is true the module
    ends through [fail_json] with the message "One or more supplied key
    could not be found in the database." and nothing else. *)
Theorem exit2_fails_by_default (p : params) (w : world) (path out err : str) :
  get_bin_path w (lit "getent") = BinFound path ->
  run_command w (cmd_of path p) = Ran 2 out err ->
  fail_key p = true ->
  result_of p w =
  FailJson [(k_msg, VStr (lit "One or more supplied key could not be found in the database."))].
Proof.
  intros Hbin Hrun Hfk. unfold result_of. rewrite (main_ran p w path Hbin _ _ _ Hrun). cbn [snd].
  rewrite dispatch_2, Hfk. reflexivity.
Qed.

Lemma exit2_fails_by_default_witness :
  result_of {| database := lit "passwd"; key := Some (lit "nobody2");
               split := None; fail_key := true |}
            (fixed_world (BinFound (lit "/usr/bin/getent")) (Ran 2 [] []))
  = FailJson [(k_msg, VStr (lit "One or more supplied key could not be found in the database."))].
Proof.
  exact (exit2_fails_by_default
           {| database := lit "passwd"; key := Some (lit "nobody2");
              split := None; fail_key := true |}
           (fixed_world (BinFound (lit "/usr/bin/getent")) (Ran 2 [] []))
           (lit "/usr/bin/getent") [] [] eq_refl eq_refl eq_refl).
Defined.

(** C3. Exit code 1 ends the module through [fail_json] with "Missing
    arguments, or database unknown.", exit code 3 with "Enumeration not
    supported on this database.", and every exit code other than 0, 1, 2
    and 3 with "Unexpected failure!".  The flag [fail_key] plays no part:
    the outcome is the same whichever value [b] it is given. *)
Theorem exit_1_3_other_fail (p : params) (w : world) (path out err : str)
        (rc : Z) (b : bool) :
  get_bin_path w (lit "getent") = BinFound path ->
  run_command w (cmd_of path p) = Ran rc out err ->
  (rc = 1%Z ->
   result_of (with_fail_key b p) w =
   FailJson [(k_msg, VStr (lit "Missing arguments, or database unknown."))])
  /\ (rc = 3%Z ->
      result_of (with_fail_key b p) w =
      FailJson [(k_msg, VStr (lit "Enumeration not supported on this database."))])
  /\ (rc <> 0%Z -> rc <> 1%Z -> rc <> 2%Z -> rc <> 3%Z ->
      result_of (with_fail_key b p) w =
      FailJson [(k_msg, VStr (lit "Unexpected failure!"))]).
Proof.
  intros Hbin Hrun.
  assert (Hmain : forall msg,
             rc <> 0%Z -> rc <> 2%Z ->
             (if (rc =? 1)%Z then msg_missing_args
              else if (rc =? 3)%Z then msg_no_enumeration else msg_unexpected) = msg ->
             result_of (with_fail_key b p) w = FailJson [(k_msg, VStr msg)]).
  { intros msg H0 H2 Hmsg. unfold result_of.
    rewrite (main_ran (with_fail_key b p) w path Hbin rc out err Hrun). cbn [snd].
    rewrite dispatch_failure by assumption. rewrite Hmsg. reflexivity. }
  repeat split.
  - intros ->. apply Hmain; [lia | lia | reflexivity].
  - intros ->. apply Hmain; [lia | lia | reflexivity].
  - intros H0 H1 H2 H3. apply Hmain; [assumption | assumption |].
    apply Z.eqb_neq in H1. apply Z.eqb_neq in H3. rewrite H1, H3. reflexivity.
Qed.

Lemma exit_1_3_other_fail_witness :
  let p := {| database := lit "nosuchdb"; key := None; split := None; fail_key := true |} in
  (result_of (with_fail_key false p)
             (fixed_world (BinFound (lit "/usr/bin/getent")) (Ran 1 [] []))
   = FailJson [(k_msg, VStr (lit "Missing arguments, or database unknown."))])
  /\ (result_of (with_fail_key false p)
                (fixed_world (BinFound (lit "/usr/bin/getent")) (Ran 3 [] []))
      = FailJson [(k_msg, VStr (lit "Enumeration not supported on this database."))])
  /\ (result_of (with_fail_key false p)
                (fixed_world (BinFound (lit "/usr/bin/getent")) (Ran 127 [] []))
      = FailJson [(k_msg, VStr (lit "Unexpected failure!"))]).
Proof.
  intros p. split; [|split].
  - exact (proj1 (exit_1_3_other_fail p
             (fixed_world (BinFound (lit "/usr/bin/getent")) (Ran 1 [] []))
             (lit "/usr/bin/getent") [] [] 1 false eq_refl eq_refl) eq_refl).
  - exact (proj1 (proj2 (exit_1_3_other_fail p
             (fixed_world (BinFound (lit "/usr/bin/getent")) (Ran 3 [] []))
             (lit "/usr/bin/getent") [] [] 3 false eq_refl eq_refl)) eq_refl).
  - apply (proj2 (proj2 (exit_1_3_other_fail p
             (fixed_world (BinFound (lit "/usr/bin/getent")) (Ran 127 [] []))
             (lit "/usr/bin/getent") [] [] 127 false eq_refl eq_refl)));
      discriminate.
Defined.

(** C6. When the [getent] executable is not found on the search path the
    module ends through [fail_json] with the framework's message for a
    missing executable, and no command has been given to [run_command]. *)
Theorem missing_executable_fails_before_spawn (p : params) (w : world) (m : str) :
  get_bin_path w (lit "getent") = BinMissing m ->
  result_of p w = FailJson [(k_msg, VStr m)] /\ spawned p w = [].
Proof.
  intros Hbin. unfold result_of, spawned, main. rewrite Hbin. split; reflexivity.
Qed.

Lemma missing_executable_fails_before_spawn_witness :
  let p := {| database := lit "passwd"; key := None; split := None; fail_key := true |} in
  let w := fixed_world (BinMissing (lit "Failed to find required executable getent"))
                       (Ran 0 [] []) in
  result_of p w = FailJson [(k_msg, VStr (lit "Failed to find required executable getent"))]
  /\ spawned p w = [].
Proof.
  intros p w.
  exact (missing_executable_fails_before_spawn p w
           (lit "Failed to find required executable getent") eq_refl).
Defined.

(** C8. When [run_command] raises, the module ends through [fail_json]: the
    [msg] of the payload is the text of the exception, its [exception] field
    the traceback text, and the payload holds neither a [getent_<database>]
    mapping nor a [results] field.  The one command given to [run_command]
    is the one that raised. *)
Theorem spawn_exception_fails (p : params) (w : world) (path : str) (e : exc_info) :
  get_bin_path w (lit "getent") = BinFound path ->
  run_command w (cmd_of path p) = RunRaised e ->
  let kwargs := [(k_msg, VStr (exc_text e)); (k_exception, VStr (exc_traceback e))] in
  result_of p w = FailJson kwargs
  /\ dict_get k_msg kwargs = Some (VStr (exc_text e))
  /\ dict_get k_exception kwargs = Some (VStr (exc_traceback e))
  /\ dict_get (KStr (dbtree_of (database p))) kwargs = None
  /\ dict_get k_results kwargs = None
  /\ spawned p w = [cmd_of path p].
Proof.
  intros Hbin Hrun kwargs. unfold result_of, spawned.
  rewrite (main_raised p w path Hbin e Hrun). repeat split.
Qed.

Lemma spawn_exception_fails_witness :
  let p := {| database := lit "passwd"; key := Some (lit "root"); split := None;
              fail_key := true |} in
  let e := {| exc_text := lit "[Errno 13] Permission denied";
              exc_traceback := lit "Traceback (most recent call last): ..." |} in
  result_of p (fixed_world (BinFound (lit "/usr/bin/getent")) (RunRaised e))
  = FailJson [(k_msg, VStr (lit "[Errno 13] Permission denied"));
              (k_exception, VStr (lit "Traceback (most recent call last): ..."))].
Proof.
  intros p e.
  exact (proj1 (spawn_exception_fails p
                  (fixed_world (BinFound (lit "/usr/bin/getent")) (RunRaised e))
                  (lit "/usr/bin/getent") e eq_refl eq_refl)).
Defined.

(** C10. When [getent] exits with code 0 and prints nothing the module ends
    through [exit_json] and [getent_<database>] is the empty mapping: there
    is no entry for the queried key, whether or not a key was given. *)
Theorem empty_stdout_empty_mapping (p : params) (w : world) (path err : str) :
  get_bin_path w (lit "getent") = BinFound path ->
  run_command w (cmd_of path p) = Ran 0 [] err ->
  result_of p w =
  ExitJson [(k_collection, VBool true); (KStr (dbtree_of (database p)), VDict [])]
  /\ dict_get (dkey_of (key p)) [] = None.
Proof.
  intros Hbin Hrun. unfold result_of.
  rewrite (main_ran p w path Hbin 0 [] err Hrun). cbn [snd].
  rewrite dispatch_0. split; reflexivity.
Qed.

Lemma empty_stdout_empty_mapping_witness :
  result_of {| database := lit "services"; key := Some (lit "http"); split := None;
               fail_key := true |}
            (fixed_world (BinFound (lit "/usr/bin/getent")) (Ran 0 [] []))
  = ExitJson [(k_collection, VBool true); (KStr (lit "getent_services"), VDict [])].
Proof.
  exact (proj1 (empty_stdout_empty_mapping
                  {| database := lit "services"; key := Some (lit "http"); split := None;
                     fail_key := true |}
                  (fixed_world (BinFound (lit "/usr/bin/getent")) (Ran 0 [] []))
                  (lit "/usr/bin/getent") [] eq_refl eq_refl)).
Defined.

(** C7. On exit code 0, when the loop runs to its end, the payload of
    [exit_json] holds [collection: True] and, under [getent_<database>], the
    mapping of the records of the lines.  On exit code 2 with [fail_key]
    false the payload has the two fields [results] and [msg], and [results]
    is an object of that same shape: [collection: True] and the mapping
    under [getent_<database>]. *)
Theorem result_shape (p : params) (w : world) (path out err : str) (rc : Z) :
  get_bin_path w (lit "getent") = BinFound path ->
  run_command w (cmd_of path p) = Ran rc out err ->
  let dbtree := KStr (dbtree_of (database p)) in
  (rc = 0%Z ->
   forall recs, records_of (effective_split p) (splitlines out) = Ok recs ->
   let kwargs := [(k_collection, VBool true); (dbtree, VDict (insert_records recs []))] in
   result_of p w = ExitJson kwargs
   /\ dict_get k_collection kwargs = Some (VBool true)
   /\ dict_get dbtree kwargs = Some (VDict (insert_records recs [])))
  /\ (rc = 2%Z -> fail_key p = false ->
      let results := [(k_collection, VBool true); (dbtree, VDict [(dkey_of (key p), VNone)])] in
      let kwargs := [(k_results, VDict results); (k_msg, VStr msg_key_not_found)] in
      result_of p w = ExitJson kwargs
      /\ dict_get k_results kwargs = Some (VDict results)
      /\ dict_get k_msg kwargs = Some (VStr msg_key_not_found)
      /\ dict_get k_collection results = Some (VBool true)
      /\ dict_get dbtree results = Some (VDict [(dkey_of (key p), VNone)])).
Proof.
  intros Hbin Hrun dbtree.
  assert (Hget : forall v, dict_get dbtree [(k_collection, VBool true); (dbtree, v)] = Some v).
  { intros v. unfold dbtree. cbn [dict_get].
    rewrite dbtree_not_collection, dkey_eqb_refl. reflexivity. }
  assert (Hres : result_of p w = dispatch p rc out).
  { unfold result_of. rewrite (main_ran p w path Hbin rc out err Hrun). reflexivity. }
  split.
  - intros Hrc recs Hrecs kwargs. subst rc. rewrite Hres, dispatch_0, Hrecs.
    repeat split. apply Hget.
  - intros Hrc Hfk results kwargs. subst rc. rewrite Hres, dispatch_2, Hfk.
    repeat split. apply Hget.
Qed.

Lemma result_shape_witness :
  let p := {| database := lit "group"; key := Some (lit "wheel"); split := None;
              fail_key := false |} in
  result_of p (fixed_world (BinFound (lit "/usr/bin/getent"))
                           (Ran 0 (lit "wheel:x:10:alice" ++ [LF]) []))
  = ExitJson [(k_collection, VBool true);
              (KStr (lit "getent_group"),
               VDict [(KStr (lit "wheel"), VList [lit "x"; lit "10"; lit "alice"])])]
  /\ result_of p (fixed_world (BinFound (lit "/usr/bin/getent")) (Ran 2 [] []))
     = ExitJson [(k_results,
                  VDict [(k_collection, VBool true);
                         (KStr (lit "getent_group"), VDict [(KStr (lit "wheel"), VNone)])]);
                 (k_msg, VStr msg_key_not_found)].
Proof.
  intros p. split.
  - exact (proj1 (proj1 (result_shape p
             (fixed_world (BinFound (lit "/usr/bin/getent"))
                          (Ran 0 (lit "wheel:x:10:alice" ++ [LF]) []))
             (lit "/usr/bin/getent") (lit "wheel:x:10:alice" ++ [LF]) [] 0 eq_refl eq_refl)
           eq_refl [(lit "wheel", [lit "x"; lit "10"; lit "alice"])] eq_refl)).
  - exact (proj1 (proj2 (result_shape p
             (fixed_world (BinFound (lit "/usr/bin/getent")) (Ran 2 [] []))
             (lit "/usr/bin/getent") [] [] 2 eq_refl eq_refl) eq_refl eq_refl)).
Defined.

(** C5. On exit code 0 with a separator [sep] the parsing loses nothing and
    keeps the order.  The module ends through [exit_json] with the mapping
    of the records; each line is cut at [sep] into a first field, which is
    a key of the mapping, and the fields after it, and joining them with
    [sep] gives the line back; when no first field repeats, the mapping is
    the list of the records in the order of the lines.  Lines written with
    their LF are read back as they were written, so the last terminator
    opens no blank line. *)
Theorem parsing_lossless_ordered (p : params) (w : world) (path out err sep : str) :
  get_bin_path w (lit "getent") = BinFound path ->
  run_command w (cmd_of path p) = Ran 0 out err ->
  effective_split p = Some sep ->
  sep <> [] ->
  let recs := map (fields_of sep) (splitlines out) in
  let tree := insert_records recs [] in
  result_of p w =
  ExitJson [(k_collection, VBool true); (KStr (dbtree_of (database p)), VDict tree)]
  /\ (forall line, In line (splitlines out) ->
      split_sep sep line = fst (fields_of sep line) :: snd (fields_of sep line)
      /\ join sep (fst (fields_of sep line) :: snd (fields_of sep line)) = line
      /\ In (KStr (fst (fields_of sep line))) (keys tree))
  /\ (NoDup (map fst recs) -> tree = map entry_of recs)
  /\ (forall lines, Forall (fun l => no_linebreak l = true) lines ->
      splitlines (unlines lines) = lines).
Proof.
  intros Hbin Hrun Hsplit Hsep recs tree. repeat split.
  - unfold result_of. rewrite (main_ran p w path Hbin 0 out err Hrun). cbn [snd].
    rewrite dispatch_0, Hsplit, (records_of_sep sep (splitlines out) Hsep). reflexivity.
  - unfold fields_of. simpl.
    pose proof (split_sep_nonempty sep line) as Hne.
    destruct (split_sep sep line); [congruence | reflexivity].
  - apply fields_of_join, Hsep.
  - unfold tree, recs. apply in_split in H. destruct H as [pre [post ->]].
    rewrite map_app. cbn [map].
    apply (insert_records_in (map (fields_of sep) pre) (map (fields_of sep) post)
                             (fields_of sep line) []).
  - intros Hnd. unfold tree. rewrite insert_records_distinct; [reflexivity | assumption |].
    intros r _ [].
  - apply splitlines_unlines.
Qed.

(** The line of the documentation: root's entry of passwd, split on ":". *)
Lemma parsing_lossless_ordered_witness :
  result_of {| database := lit "passwd"; key := Some (lit "root");
               split := Some (lit ":"); fail_key := true |}
            (fixed_world (BinFound (lit "/usr/bin/getent"))
                         (Ran 0 (lit "root:x:0:0:root:/root:/bin/bash" ++ [LF]) []))
  = ExitJson [(k_collection, VBool true);
              (KStr (lit "getent_passwd"),
               VDict [(KStr (lit "root"),
                       VList [lit "x"; lit "0"; lit "0"; lit "root"; lit "/root";
                              lit "/bin/bash"])])].
Proof.
  refine (proj1 (parsing_lossless_ordered
                   {| database := lit "passwd"; key := Some (lit "root");
                      split := Some (lit ":"); fail_key := true |}
                   (fixed_world (BinFound (lit "/usr/bin/getent"))
                                (Ran 0 (lit "root:x:0:0:root:/root:/bin/bash" ++ [LF]) []))
                   (lit "/usr/bin/getent")
                   (lit "root:x:0:0:root:/root:/bin/bash" ++ [LF]) [] (lit ":")
                   eq_refl eq_refl eq_refl _)).
  discriminate.
Defined.

(** C9. On exit code 0, when every line of the output has a first field,
    the module ends through [exit_json], and for a line with first field
    [k] after which no line has first field [k] (however many lines before
    it have), the mapping holds exactly one entry for [k], and its value is
    the remaining fields of that line: the last occurrence wins. *)
Theorem last_occurrence_wins (p : params) (w : world) (path out err : str)
        (pre post : list str) (line k : str) (vs : list str) :
  get_bin_path w (lit "getent") = BinFound path ->
  run_command w (cmd_of path p) = Ran 0 out err ->
  Forall (fun l => exists f fs, str_split l (effective_split p) = Ok (f :: fs))
         (splitlines out) ->
  splitlines out = pre ++ line :: post ->
  str_split line (effective_split p) = Ok (k :: vs) ->
  (forall l fs, In l post -> str_split l (effective_split p) <> Ok (k :: fs)) ->
  exists tree,
    result_of p w =
    ExitJson [(k_collection, VBool true); (KStr (dbtree_of (database p)), VDict tree)]
    /\ entries (KStr k) tree = 1
    /\ dict_get (KStr k) tree = Some (VList vs).
Proof.
  intros Hbin Hrun Hall Hlines Hline Hpost.
  destruct (records_of_total _ _ Hall) as [recs Hrecs].
  exists (insert_records recs []). split.
  { unfold result_of. rewrite (main_ran p w path Hbin 0 out err Hrun). cbn [snd].
    rewrite dispatch_0, Hrecs. reflexivity. }
  rewrite Hlines, records_of_app in Hrecs.
  destruct (records_of (effective_split p) pre) as [rpre|e]; [|discriminate].
  cbn [bind records_of] in Hrecs.
  rewrite (proj2 (record_of_inv (effective_split p) line (k, vs)) Hline) in Hrecs.
  cbn [bind] in Hrecs.
  destruct (records_of (effective_split p) post) as [rpost|e] eqn:Epost; [|discriminate].
  cbn [bind] in Hrecs. injection Hrecs as <-.
  assert (Hother : forall r', In r' rpost -> fst r' <> fst (k, vs)).
  { intros r' Hr' E. simpl in E.
    destruct (records_of_In _ _ _ _ Epost Hr') as [l [Hl Hs]].
    apply (Hpost l (snd r') Hl). rewrite Hs, E. reflexivity. }
  split.
  - apply entries_NoDup.
    + apply insert_records_NoDup. constructor.
    + apply (insert_records_in rpre rpost (k, vs) []).
  - apply (insert_records_last rpre rpost (k, vs) [] Hother).
Qed.

Lemma last_occurrence_wins_witness :
  exists tree,
    result_of {| database := lit "hosts"; key := None; split := None; fail_key := true |}
              (fixed_world (BinFound (lit "/usr/bin/getent"))
                           (Ran 0 (lit "127.0.0.1 localhost" ++ [LF]
                                   ++ lit "10.0.0.1 gw" ++ [LF]
                                   ++ lit "127.0.0.1 loop lo" ++ [LF]) []))
    = ExitJson [(k_collection, VBool true); (KStr (lit "getent_hosts"), VDict tree)]
    /\ entries (KStr (lit "127.0.0.1")) tree = 1
    /\ dict_get (KStr (lit "127.0.0.1")) tree = Some (VList [lit "loop"; lit "lo"]).
Proof.
  refine (last_occurrence_wins
            {| database := lit "hosts"; key := None; split := None; fail_key := true |}
            (fixed_world (BinFound (lit "/usr/bin/getent"))
                         (Ran 0 (lit "127.0.0.1 localhost" ++ [LF]
                                 ++ lit "10.0.0.1 gw" ++ [LF]
                                 ++ lit "127.0.0.1 loop lo" ++ [LF]) []))
            (lit "/usr/bin/getent") _ []
            [lit "127.0.0.1 localhost"; lit "10.0.0.1 gw"] []
            (lit "127.0.0.1 loop lo") (lit "127.0.0.1") [lit "loop"; lit "lo"]
            eq_refl eq_refl _ eq_refl eq_refl _).
  - repeat constructor; eexists; eexists; reflexivity.
  - intros l fs [].
Defined.

(* ===================================================================== *)
(** ** More on the built-ins *)
(* ===================================================================== *)

Section BuiltinFacts.

Lemma splitlines_nil_iff (s : str) : splitlines s = [] <-> s = [].
Proof.
  split; [|intros ->; reflexivity].
  destruct s as [|c s']; [reflexivity|]. cbn [splitlines].
  destruct (is_linebreak c).
  - destruct (N.eqb c CR); [destruct s' as [|c' s'']; [|destruct (N.eqb c' LF)]|];
      discriminate.
  - intros H. exfalso. exact (push_head_nonempty c (splitlines s') H).
Qed.

Lemma push_head_Forall (P : str -> Prop) (c : char) (parts : list str) :
  P [c] -> (forall f, P f -> P (c :: f)) -> Forall P parts -> Forall P (push_head c parts).
Proof.
  intros H1 Hc H. destruct H as [|f fs Hf Hfs]; simpl; constructor; auto.
Qed.

Lemma splitlines_clean_upto (n : nat) (s : str) :
  List.length s <= n -> Forall (fun l => no_linebreak l = true) (splitlines s).
Proof.
  revert s. induction n as [|n IH]; intros s Hlen.
  - destruct s; [constructor | simpl in Hlen; lia].
  - destruct s as [|c s']; [constructor|]. simpl in Hlen. cbn [splitlines].
    destruct (is_linebreak c) eqn:Ec.
    + destruct (N.eqb c CR).
      * destruct s' as [|c' s''].
        { constructor; [reflexivity | constructor]. }
        destruct (N.eqb c' LF); constructor; try reflexivity; apply IH; simpl in *; lia.
      * constructor; [reflexivity | apply IH; lia].
    + apply push_head_Forall.
      * simpl. rewrite Ec. reflexivity.
      * intros f Hf. simpl. rewrite Ec. exact Hf.
      * apply IH. lia.
Qed.

Lemma split_ws_from_nil (s cur : str) :
  split_ws_from cur s = [] <-> cur = [] /\ is_blank s = true.
Proof.
  revert cur. induction s as [|c s IH]; intros cur; simpl.
  - destruct cur; split; try tauto; try discriminate. intros [H _]. discriminate.
  - destruct (is_space c); simpl.
    + destruct cur as [|x cur].
      * rewrite IH. tauto.
      * split; [discriminate | intros [H _]; discriminate].
    + rewrite IH. split; intros [H1 H2]; discriminate.
Qed.

Lemma no_space_rev (f : str) : no_space f = true -> no_space (rev f) = true.
Proof.
  unfold no_space. rewrite !forallb_forall. intros H x Hx. apply H, in_rev, Hx.
Qed.

Lemma split_ws_from_clean (s cur : str) :
  no_space cur = true ->
  Forall (fun f => f <> [] /\ no_space f = true) (split_ws_from cur s).
Proof.
  revert cur. induction s as [|c s IH]; intros cur Hcur; simpl.
  - destruct cur as [|x cur]; [constructor|].
    constructor; [|constructor]. split; [|apply no_space_rev, Hcur].
    simpl. intros E. apply app_eq_nil in E. destruct E; discriminate.
  - destruct (is_space c) eqn:Ec.
    + destruct cur as [|x cur]; [apply IH; reflexivity|].
      constructor; [|apply IH; reflexivity].
      split; [|apply no_space_rev, Hcur].
      simpl. intros E. apply app_eq_nil in E. destruct E; discriminate.
    + apply IH. simpl. rewrite Ec. exact Hcur.
Qed.

(** Reading a field that holds no whitespace only grows the field in hand. *)
Lemma split_ws_from_field (f rest cur : str) :
  no_space f = true -> split_ws_from cur (f ++ rest) = split_ws_from (rev f ++ cur) rest.
Proof.
  revert cur. induction f as [|x f IH]; intros cur Hf; simpl in *; [reflexivity|].
  apply andb_true_iff in Hf. destruct Hf as [Hx Hf]. apply negb_true_iff in Hx.
  rewrite Hx, IH by assumption. rewrite <- app_assoc. reflexivity.
Qed.

Lemma split_ws_join (c : char) (fields : list str) :
  is_space c = true ->
  Forall (fun f => f <> [] /\ no_space f = true) fields ->
  split_ws (join [c] fields) = fields.
Proof.
  intros Hc H. unfold split_ws. induction H as [|f fs [Hne Hf] Hfs IH]; [reflexivity|].
  assert (Hrev : rev f <> []).
  { intros E. apply Hne. rewrite <- (rev_involutive f), E. reflexivity. }
  destruct fs as [|g fs].
  - simpl. rewrite <- (app_nil_r f) at 1. rewrite split_ws_from_field by assumption.
    rewrite app_nil_r. simpl. destruct (rev f) eqn:E; [congruence|].
    rewrite <- E, rev_involutive. reflexivity.
  - rewrite join_cons by discriminate.
    rewrite split_ws_from_field by assumption. rewrite app_nil_r.
    cbn [app split_ws_from]. rewrite Hc.
    destruct (rev f) eqn:E; [congruence|].
    rewrite <- E, rev_involutive, IH. reflexivity.
Qed.

(** [s.split(c)] for a separator of one character, one step at a time. *)
Lemma split_sep_char_cons (c x : char) (s : str) :
  split_sep [c] (x :: s) =
  if N.eqb c x then [] :: split_sep [c] s else push_head x (split_sep [c] s).
Proof.
  simp split_sep. cbn [starts_with]. rewrite andb_true_r.
  destruct (N.eqb c x); reflexivity.
Qed.

Lemma split_sep_char_count (c : char) (s : str) :
  List.length (split_sep [c] s) = S (count_char c s).
Proof.
  unfold count_char. induction s as [|x s IH]; [reflexivity|].
  rewrite split_sep_char_cons. cbn [filter]. destruct (N.eqb c x); simpl.
  - rewrite IH. reflexivity.
  - destruct (split_sep [c] s); simpl in *; [discriminate | exact IH].
Qed.

Lemma split_sep_char_clean (c : char) (s : str) :
  Forall (fun f => ~ In c f) (split_sep [c] s).
Proof.
  induction s as [|x s IH].
  - simp split_sep. constructor; [tauto | constructor].
  - rewrite split_sep_char_cons. destruct (N.eqb c x) eqn:E.
    + constructor; [tauto | exact IH].
    + apply N.eqb_neq in E. apply push_head_Forall; [| |exact IH].
      * simpl. intros [H|[]]. congruence.
      * intros f Hf [H|H]; [congruence | tauto].
Qed.

Lemma split_sep_char_field (c : char) (f rest : str) :
  ~ In c f -> split_sep [c] (f ++ c :: rest) = f :: split_sep [c] rest.
Proof.
  induction f as [|x f IH]; intros Hf.
  - cbn [app]. rewrite split_sep_char_cons, N.eqb_refl. reflexivity.
  - cbn [app]. rewrite split_sep_char_cons.
    destruct (N.eqb c x) eqn:E.
    + apply N.eqb_eq in E. subst. exfalso. apply Hf. left. reflexivity.
    + rewrite IH by (intros H; apply Hf; right; exact H). reflexivity.
Qed.

Lemma split_sep_char_last (c : char) (f : str) :
  ~ In c f -> split_sep [c] f = [f].
Proof.
  induction f as [|x f IH]; intros Hf.
  - reflexivity.
  - rewrite split_sep_char_cons. destruct (N.eqb c x) eqn:E.
    + apply N.eqb_eq in E. subst. exfalso. apply Hf. left. reflexivity.
    + rewrite IH by (intros H; apply Hf; right; exact H). reflexivity.
Qed.

Lemma split_sep_char_join (c : char) (fields : list str) :
  fields <> [] -> Forall (fun f => ~ In c f) fields ->
  split_sep [c] (join [c] fields) = fields.
Proof.
  intros Hne H. induction H as [|f fs Hf Hfs IH]; [exfalso; apply Hne; reflexivity|].
  destruct fs as [|g fs].
  - simpl. apply split_sep_char_last, Hf.
  - rewrite join_cons by discriminate. cbn [app].
    rewrite split_sep_char_field by assumption. rewrite IH by discriminate. reflexivity.
Qed.

Lemma no_linebreak_app (a b : str) :
  no_linebreak (a ++ b) = no_linebreak a && no_linebreak b.
Proof. unfold no_linebreak. apply forallb_app. Qed.

Lemma no_linebreak_join (sep : str) (fields : list str) :
  no_linebreak sep = true -> Forall (fun f => no_linebreak f = true) fields ->
  no_linebreak (join sep fields) = true.
Proof.
  intros Hsep H. induction H as [|f fs Hf Hfs IH]; [reflexivity|].
  destruct fs as [|g fs]; [exact Hf|].
  rewrite join_cons by discriminate. rewrite !no_linebreak_app, Hf, Hsep, IH. reflexivity.
Qed.

End BuiltinFacts.

(* ===================================================================== *)
(** ** More on the loop *)
(* ===================================================================== *)

Section LoopFacts.

Lemma record_of_ws (line : str) :
  record_of None line =
  if is_blank line then Raise IndexError else Ok (ws_fields_of line).
Proof.
  unfold record_of, ws_fields_of, str_split. cbn [bind].
  destruct (split_ws line) as [|f fs] eqn:E.
  - apply split_ws_from_nil in E. destruct E as [_ ->]. reflexivity.
  - destruct (is_blank line) eqn:Eb; [|reflexivity].
    assert (H : split_ws line = []) by (apply split_ws_from_nil; tauto).
    congruence.
Qed.

(** On the whitespace path the loop stops at the first blank line. *)
Lemma records_of_ws (lines : list str) :
  records_of None lines =
  if existsb is_blank lines then Raise IndexError else Ok (map ws_fields_of lines).
Proof.
  induction lines as [|l lines IH]; [reflexivity|].
  cbn [records_of existsb map]. rewrite record_of_ws, IH.
  destruct (is_blank l); [reflexivity|]. cbn [bind orb].
  destruct (existsb is_blank lines); reflexivity.
Qed.

Lemma record_of_raise (sep : option str) (line : str) (e : exn) :
  record_of sep line = Raise e -> e = IndexError \/ e = ValueError.
Proof.
  unfold record_of, str_split, list_getitem.
  destruct sep as [[|c s]|]; cbn [bind].
  - intros H. injection H as <-. tauto.
  - destruct (split_sep (c :: s) line); cbn [nth_error bind]; intros H;
      [injection H as <-; tauto | discriminate].
  - destruct (split_ws line); cbn [nth_error bind]; intros H;
      [injection H as <-; tauto | discriminate].
Qed.

(** The loop raises nothing but [IndexError] and [ValueError]. *)
Lemma records_of_raise (sep : option str) (lines : list str) (e : exn) :
  records_of sep lines = Raise e -> e = IndexError \/ e = ValueError.
Proof.
  induction lines as [|l lines IH]; cbn [records_of]; [discriminate|].
  destruct (record_of sep l) as [r|e0] eqn:E0; cbn [bind].
  - destruct (records_of sep lines) as [rs|e1]; cbn [bind]; [discriminate|].
    intros H. injection H as <-. apply IH. reflexivity.
  - intros H. injection H as <-. exact (record_of_raise _ _ _ E0).
Qed.

Lemma existsb_dkey_In (k : dkey) (l : list dkey) :
  existsb (dkey_eqb k) l = true <-> In k l.
Proof.
  rewrite existsb_exists. split.
  - intros [x [Hx E]]. apply dkey_eqb_eq in E. subst. exact Hx.
  - intros H. exists k. split; [exact H | apply dkey_eqb_refl].
Qed.

(** [first_seen] looks at [seen] as a set. *)
Lemma first_seen_ext (l s1 s2 : list dkey) :
  (forall x, In x s1 <-> In x s2) -> first_seen s1 l = first_seen s2 l.
Proof.
  revert s1 s2. induction l as [|k l IH]; intros s1 s2 H; [reflexivity|].
  cbn [first_seen].
  assert (E : existsb (dkey_eqb k) s1 = existsb (dkey_eqb k) s2).
  { destruct (existsb (dkey_eqb k) s1) eqn:E1, (existsb (dkey_eqb k) s2) eqn:E2;
      try reflexivity.
    - apply existsb_dkey_In, H, existsb_dkey_In in E1. congruence.
    - apply existsb_dkey_In, H, existsb_dkey_In in E2. congruence. }
  rewrite E. destruct (existsb (dkey_eqb k) s2).
  - apply IH, H.
  - f_equal. apply IH. intros x. simpl. rewrite H. tauto.
Qed.

(** The keys of the mapping stand in the order in which the loop first
    stored them; a later store under a present key moves nothing. *)
Lemma keys_insert_records (recs : list (str * list str)) (m : dict) :
  keys (insert_records recs m) =
  keys m ++ first_seen (keys m) (map (fun r => KStr (fst r)) recs).
Proof.
  revert m. induction recs as [|r recs IH]; intros m.
  - simpl. rewrite app_nil_r. reflexivity.
  - cbn [insert_records fold_left map first_seen].
    change (fold_left _ recs ?d) with (insert_records recs d). rewrite IH.
    destruct (existsb (dkey_eqb (KStr (fst r))) (keys m)) eqn:E.
    + apply existsb_dkey_In in E. rewrite (keys_set_present _ (VList (snd r)) _ E).
      reflexivity.
    + assert (Hout : ~ In (KStr (fst r)) (keys m)).
      { intros Hin. apply existsb_dkey_In in Hin. congruence. }
      rewrite dict_set_absent by assumption. unfold keys at 1 2.
      rewrite map_app, <- app_assoc. cbn [map fst app]. do 2 f_equal.
      apply first_seen_ext. intros x. rewrite in_app_iff. simpl. tauto.
Qed.

Lemma dict_set_Forall (P : dkey * value -> Prop) (k : dkey) (v : value) (d : dict) :
  P (k, v) -> Forall P d -> Forall P (dict_set k v d).
Proof.
  intros Hkv H. induction H as [|[k' v'] d Hd Hrest IH]; simpl.
  - constructor; [exact Hkv | constructor].
  - destruct (dkey_eqb k k') eqn:E.
    + apply dkey_eqb_eq in E. subst. constructor; assumption.
    + constructor; assumption.
Qed.

(** What holds of every record holds of every entry of the mapping. *)
Lemma insert_records_Forall (P : dkey * value -> Prop) (recs : list (str * list str))
      (m : dict) :
  (forall r, In r recs -> P (entry_of r)) -> Forall P m ->
  Forall P (insert_records recs m).
Proof.
  revert m. induction recs as [|r recs IH]; intros m Hr Hm; [exact Hm|].
  cbn [insert_records fold_left]. change (fold_left _ recs ?d) with (insert_records recs d).
  apply IH.
  - intros r' H'. apply Hr. right. exact H'.
  - apply dict_set_Forall; [|exact Hm]. apply (Hr r). left. reflexivity.
Qed.

Lemma records_of_sound (sep : option str) (lines : list str) (recs : list (str * list str)) :
  records_of sep lines = Ok recs ->
  forall r, In r recs -> exists l, In l lines /\ str_split l sep = Ok (fst r :: snd r).
Proof. intros H r Hr. exact (records_of_In _ _ _ _ H Hr). Qed.

Lemma In_skipn_In (x : char) (n : nat) (s : str) : In x (skipn n s) -> In x s.
Proof.
  revert s. induction n as [|n IH]; intros s; [exact (fun H => H)|].
  destruct s as [|y s]; simpl; [tauto|]. intros H. right. apply IH, H.
Qed.

(** The fields hold characters of the line and no others. *)
Lemma split_sep_sub (sep s : str) :
  Forall (fun f => forall x, In x f -> In x s) (split_sep sep s).
Proof.
  funelim (split_sep sep s).
  - constructor; [intros x [] | constructor].
  - constructor; [intros x []|].
    eapply Forall_impl; [|exact H]. intros f Hf x Hx. right.
    eapply In_skipn_In, Hf, Hx.
  - apply push_head_Forall.
    + intros x [<-|[]]. left. reflexivity.
    + intros f Hf x [<-|Hx]; [left; reflexivity | exact (Hf x Hx)].
    + eapply Forall_impl; [|exact H]. intros f Hf x Hx. right. exact (Hf x Hx).
Qed.

Lemma split_ws_from_sub (s cur : str) :
  Forall (fun f => forall x, In x f -> In x cur \/ In x s) (split_ws_from cur s).
Proof.
  revert cur. induction s as [|c s IH]; intros cur; simpl.
  - destruct cur as [|y cur]; constructor; [|constructor].
    intros x Hx. left. apply in_rev. exact Hx.
  - destruct (is_space c).
    + destruct cur as [|y cur].
      * eapply Forall_impl; [|exact (IH [])]. intros f Hf x Hx.
        destruct (Hf x Hx) as [[]|H]. right. right. exact H.
      * constructor.
        { intros x Hx. left. apply in_rev. exact Hx. }
        eapply Forall_impl; [|exact (IH [])]. intros f Hf x Hx.
        destruct (Hf x Hx) as [[]|H]. right. right. exact H.
    + eapply Forall_impl; [|exact (IH (c :: cur))]. intros f Hf x Hx.
      destruct (Hf x Hx) as [[<-|H]|H]; [right; left; reflexivity | left; exact H |
                                         right; right; exact H].
Qed.

Lemma str_split_sub (sep : option str) (line : str) (fields : list str) :
  str_split line sep = Ok fields ->
  Forall (fun f => forall x, In x f -> In x line) fields.
Proof.
  unfold str_split. destruct sep as [[|c s]|]; intros H; [discriminate| |];
    injection H as <-.
  - apply split_sep_sub.
  - eapply Forall_impl; [|exact (split_ws_from_sub line [])].
    intros f Hf x Hx. destruct (Hf x Hx) as [[]|H]. exact H.
Qed.

(** The lines hold characters of the output that end no line. *)
Lemma splitlines_sub_upto (n : nat) (s : str) :
  List.length s <= n ->
  Forall (fun l => forall x, In x l -> In x s /\ is_linebreak x = false) (splitlines s).
Proof.
  revert s. induction n as [|n IH]; intros s Hlen.
  - destruct s; [constructor | simpl in Hlen; lia].
  - destruct s as [|c s']; [constructor|]. simpl in Hlen. cbn [splitlines].
    assert (Hstep : forall t, (forall x, In x t -> In x s') -> List.length t <= n ->
              Forall (fun l => forall x, In x l -> In x (c :: s') /\ is_linebreak x = false)
                     (splitlines t)).
    { intros t Ht Hl. eapply Forall_impl; [|exact (IH t Hl)].
      intros l Hl' x Hx. destruct (Hl' x Hx) as [H1 H2].
      split; [right; apply Ht, H1 | exact H2]. }
    destruct (is_linebreak c) eqn:Ec.
    + destruct (N.eqb c CR).
      * destruct s' as [|c' s''].
        { constructor; [intros x [] | constructor]. }
        destruct (N.eqb c' LF); constructor; try (intros x []).
        { apply Hstep; [intros x Hx; right; exact Hx | simpl in Hlen; lia]. }
        { apply Hstep; [intros x Hx; exact Hx | lia]. }
      * constructor; [intros x [] | apply Hstep; [intros x Hx; exact Hx | lia]].
    + apply push_head_Forall.
      * intros x [<-|[]]. split; [left; reflexivity | exact Ec].
      * intros f Hf x [<-|Hx]; [split; [left; reflexivity | exact Ec] | exact (Hf x Hx)].
      * apply Hstep; [intros x Hx; exact Hx | lia].
Qed.

End LoopFacts.

Section OutcomeFacts.

Variables (p : params) (w : world) (path out err : str).
Hypothesis Hbin : get_bin_path w (lit "getent") = BinFound path.
Hypothesis Hrun : run_command w (cmd_of path p) = Ran 0 out err.

(** The outcome of exit code 0 in terms of the records. *)
Lemma result_of_exit0 :
  result_of p w =
  match records_of (effective_split p) (splitlines out) with
  | Ok recs => ExitJson [(k_collection, VBool true);
                         (KStr (dbtree_of (database p)), VDict (insert_records recs []))]
  | Raise e => Uncaught e
  end.
Proof.
  unfold result_of. rewrite (main_ran p w path Hbin 0 out err Hrun).
  apply dispatch_0.
Qed.

Lemma exit0_payload (kwargs : dict) :
  result_of p w = ExitJson kwargs ->
  exists recs,
    records_of (effective_split p) (splitlines out) = Ok recs
    /\ kwargs = [(k_collection, VBool true);
                 (KStr (dbtree_of (database p)), VDict (insert_records recs []))].
Proof.
  rewrite result_of_exit0.
  destruct (records_of (effective_split p) (splitlines out)) as [recs|e]; [|discriminate].
  intros H. injection H as <-. exists recs. split; reflexivity.
Qed.

End OutcomeFacts.

(* ===================================================================== *)
(** ** Further properties of the module *)
(* ===================================================================== *)

(** X1. On exit code 0 under the whitespace rule, a line of nothing but
    whitespace anywhere in the output ends the module with [IndexError]
    (raised by [record[0]]); without such a line the module ends through
    [exit_json] with the records of all lines. *)
Theorem blank_line_raises (p : params) (w : world) (path out err : str) :
  get_bin_path w (lit "getent") = BinFound path ->
  run_command w (cmd_of path p) = Ran 0 out err ->
  effective_split p = None ->
  ((exists l, In l (splitlines out) /\ is_blank l = true) ->
   result_of p w = Uncaught IndexError)
  /\ ((forall l, In l (splitlines out) -> is_blank l = false) ->
      result_of p w =
      ExitJson [(k_collection, VBool true);
                (KStr (dbtree_of (database p)),
                 VDict (insert_records (map ws_fields_of (splitlines out)) []))]).
Proof.
  intros Hbin Hrun Hsplit.
  rewrite (result_of_exit0 p w path out err Hbin Hrun), Hsplit, records_of_ws.
  split.
  - intros [l [Hl Hb]].
    assert (E : existsb is_blank (splitlines out) = true).
    { apply existsb_exists. exists l. tauto. }
    rewrite E. reflexivity.
  - intros Hall.
    assert (E : existsb is_blank (splitlines out) = false).
    { destruct (existsb is_blank (splitlines out)) eqn:E; [|reflexivity].
      apply existsb_exists in E. destruct E as [l [Hl Hb]].
      rewrite (Hall l Hl) in Hb. discriminate. }
    rewrite E. reflexivity.
Qed.

Lemma blank_line_raises_witness :
  result_of {| database := lit "hosts"; key := None; split := None; fail_key := true |}
            (fixed_world (BinFound (lit "/usr/bin/getent"))
                         (Ran 0 (lit "10.0.0.1 gw" ++ [LF] ++ lit "  " ++ [LF]
                                 ++ lit "10.0.0.2 db" ++ [LF]) []))
  = Uncaught IndexError.
Proof.
  apply (proj1 (blank_line_raises
                  {| database := lit "hosts"; key := None; split := None; fail_key := true |}
                  (fixed_world (BinFound (lit "/usr/bin/getent"))
                               (Ran 0 (lit "10.0.0.1 gw" ++ [LF] ++ lit "  " ++ [LF]
                                       ++ lit "10.0.0.2 db" ++ [LF]) []))
                  (lit "/usr/bin/getent") _ [] eq_refl eq_refl eq_refl)).
  exists (lit "  "). split; [right; left; reflexivity | reflexivity].
Defined.

(** X2. With [split] given as the empty string, exit code 0 and any output
    at all end the module with [ValueError]: [line.split('')] raises on the
    first line. *)
Theorem empty_separator_raises (p : params) (w : world) (path out err : str) :
  get_bin_path w (lit "getent") = BinFound path ->
  run_command w (cmd_of path p) = Ran 0 out err ->
  split p = Some [] ->
  out <> [] ->
  result_of p w = Uncaught ValueError.
Proof.
  intros Hbin Hrun Hsplit Hout.
  rewrite (result_of_exit0 p w path out err Hbin Hrun).
  unfold effective_split. rewrite Hsplit. cbn [is_none andb].
  destruct (splitlines out) as [|l ls] eqn:E.
  - apply splitlines_nil_iff in E. congruence.
  - reflexivity.
Qed.

Lemma empty_separator_raises_witness :
  result_of {| database := lit "passwd"; key := None; split := Some []; fail_key := true |}
            (fixed_world (BinFound (lit "/usr/bin/getent"))
                         (Ran 0 (lit "root:x:0:0" ++ [LF]) []))
  = Uncaught ValueError.
Proof.
  apply (empty_separator_raises
           {| database := lit "passwd"; key := None; split := Some []; fail_key := true |}
           (fixed_world (BinFound (lit "/usr/bin/getent"))
                        (Ran 0 (lit "root:x:0:0" ++ [LF]) []))
           (lit "/usr/bin/getent") _ [] eq_refl eq_refl eq_refl).
  discriminate.
Defined.

(** X3. Whenever exit code 0 ends in [exit_json], the payload has the two
    fields [collection] and [getent_<database>], in that order, and the keys
    of the mapping are the first fields of the lines, each once, in the
    order in which they first occur in the output: a repeated key keeps the
    place of its first line. *)
Theorem mapping_keys_first_seen (p : params) (w : world) (path out err : str)
        (kwargs : dict) :
  get_bin_path w (lit "getent") = BinFound path ->
  run_command w (cmd_of path p) = Ran 0 out err ->
  result_of p w = ExitJson kwargs ->
  exists recs tree,
    records_of (effective_split p) (splitlines out) = Ok recs
    /\ kwargs = [(k_collection, VBool true); (KStr (dbtree_of (database p)), VDict tree)]
    /\ keys tree = first_seen [] (map (fun r => KStr (fst r)) recs)
    /\ NoDup (keys tree).
Proof.
  intros Hbin Hrun Hres.
  destruct (exit0_payload p w path out err Hbin Hrun kwargs Hres) as [recs [Hrecs ->]].
  exists recs, (insert_records recs []). repeat split.
  - exact Hrecs.
  - apply (keys_insert_records recs []).
  - apply insert_records_NoDup. constructor.
Qed.

Lemma mapping_keys_first_seen_witness :
  exists recs tree,
    records_of (Some (lit ":"))
               (splitlines (lit "a:1" ++ [LF] ++ lit "b:2" ++ [LF] ++ lit "a:3" ++ [LF]))
    = Ok recs
    /\ [(k_collection, VBool true);
        (KStr (lit "getent_group"),
         VDict [(KStr (lit "a"), VList [lit "3"]); (KStr (lit "b"), VList [lit "2"])])]
       = [(k_collection, VBool true); (KStr (lit "getent_group"), VDict tree)]
    /\ keys tree = first_seen [] (map (fun r => KStr (fst r)) recs)
    /\ NoDup (keys tree).
Proof.
  exact (mapping_keys_first_seen
           {| database := lit "group"; key := None; split := None; fail_key := true |}
           (fixed_world (BinFound (lit "/usr/bin/getent"))
                        (Ran 0 (lit "a:1" ++ [LF] ++ lit "b:2" ++ [LF] ++ lit "a:3" ++ [LF]) []))
           (lit "/usr/bin/getent") _ [] _ eq_refl eq_refl eq_refl).
Defined.

(** X4. Whenever exit code 0 ends in [exit_json], every entry of the
    mapping has a string as key and a list of strings as value, and every
    character of every key and value is a character of the output that ends
    no line: the parse invents nothing and no field holds a line break. *)
Theorem entries_come_from_output (p : params) (w : world) (path out err : str)
        (kwargs : dict) :
  get_bin_path w (lit "getent") = BinFound path ->
  run_command w (cmd_of path p) = Ran 0 out err ->
  result_of p w = ExitJson kwargs ->
  exists tree,
    kwargs = [(k_collection, VBool true); (KStr (dbtree_of (database p)), VDict tree)]
    /\ Forall (fun e =>
                 is_record_entry e = true
                 /\ forall f x, In f (entry_fields e) -> In x f ->
                                In x out /\ is_linebreak x = false) tree.
Proof.
  intros Hbin Hrun Hres.
  destruct (exit0_payload p w path out err Hbin Hrun kwargs Hres) as [recs [Hrecs ->]].
  exists (insert_records recs []). split; [reflexivity|].
  apply insert_records_Forall; [|constructor].
  intros r Hr. split; [reflexivity|]. intros f x Hf Hx.
  destruct (records_of_sound _ _ _ Hrecs r Hr) as [l [Hl Hs]].
  pose proof (str_split_sub _ _ _ Hs) as Hsub.
  pose proof (splitlines_sub_upto (List.length out) out (le_n _)) as Hlines.
  rewrite Forall_forall in Hsub, Hlines.
  exact (Hlines l Hl x (Hsub f Hf x Hx)).
Qed.

Lemma entries_come_from_output_witness :
  exists tree,
    [(k_collection, VBool true);
     (KStr (lit "getent_hosts"), VDict [(KStr (lit "10.0.0.1"), VList [lit "gw"])])]
    = [(k_collection, VBool true); (KStr (lit "getent_hosts"), VDict tree)]
    /\ Forall (fun e =>
                 is_record_entry e = true
                 /\ forall f x, In f (entry_fields e) -> In x f ->
                                In x (lit "10.0.0.1 gw" ++ [CR; LF])
                                /\ is_linebreak x = false) tree.
Proof.
  exact (entries_come_from_output
           {| database := lit "hosts"; key := None; split := None; fail_key := true |}
           (fixed_world (BinFound (lit "/usr/bin/getent"))
                        (Ran 0 (lit "10.0.0.1 gw" ++ [CR; LF]) []))
           (lit "/usr/bin/getent") _ [] _ eq_refl eq_refl eq_refl).
Defined.

Lemma linebreak_is_space (c : char) : is_linebreak c = true -> is_space c = true.
Proof.
  unfold is_linebreak. cbn [existsb]. intros H.
  repeat (apply orb_true_iff in H; destruct H as [H|H]);
    try discriminate; apply N.eqb_eq in H; subst; reflexivity.
Qed.

Lemma no_space_no_linebreak (f : str) : no_space f = true -> no_linebreak f = true.
Proof.
  unfold no_space, no_linebreak. rewrite !forallb_forall. intros H x Hx.
  specialize (H x Hx). apply negb_true_iff in H. apply negb_true_iff.
  destruct (is_linebreak x) eqn:E; [|reflexivity].
  apply linebreak_is_space in E. congruence.
Qed.

Lemma records_round_trip (sep : option str) (fmt : str * list str -> str)
      (recs : list (str * list str)) :
  (forall r, In r recs -> record_of sep (fmt r) = Ok r) ->
  records_of sep (map fmt recs) = Ok recs.
Proof.
  induction recs as [|r recs IH]; intros H; [reflexivity|].
  cbn [map records_of]. rewrite (H r) by (left; reflexivity). cbn [bind].
  rewrite IH by (intros r' Hr'; apply H; right; exact Hr'). reflexivity.
Qed.

(** Records with distinct keys, written one per line, come back as they
    were, whichever rule cuts the lines back into the records. *)
Lemma written_records_read_back (p : params) (w : world) (path err : str)
      (fmt : str * list str -> str) (recs : list (str * list str)) :
  get_bin_path w (lit "getent") = BinFound path ->
  run_command w (cmd_of path p) = Ran 0 (unlines (map fmt recs)) err ->
  (forall r, In r recs -> no_linebreak (fmt r) = true) ->
  (forall r, In r recs -> record_of (effective_split p) (fmt r) = Ok r) ->
  NoDup (map fst recs) ->
  result_of p w =
  ExitJson [(k_collection, VBool true);
            (KStr (dbtree_of (database p)), VDict (map entry_of recs))].
Proof.
  intros Hbin Hrun Hlb Hrec Hnd.
  rewrite (result_of_exit0 p w path _ err Hbin Hrun).
  rewrite splitlines_unlines.
  - rewrite (records_round_trip _ fmt recs Hrec).
    rewrite insert_records_distinct; [reflexivity | exact Hnd | intros r _ []].
  - apply Forall_forall. intros l Hl. apply in_map_iff in Hl.
    destruct Hl as [r [<- Hr]]. apply Hlb, Hr.
Qed.

(** X5. Whenever exit code 0 ends in [exit_json] under the whitespace rule,
    no key and no value of the mapping is empty or holds a whitespace
    character. *)
Theorem whitespace_fields_clean (p : params) (w : world) (path out err : str)
        (kwargs : dict) :
  get_bin_path w (lit "getent") = BinFound path ->
  run_command w (cmd_of path p) = Ran 0 out err ->
  effective_split p = None ->
  result_of p w = ExitJson kwargs ->
  exists tree,
    kwargs = [(k_collection, VBool true); (KStr (dbtree_of (database p)), VDict tree)]
    /\ Forall (fun e => Forall (fun f => f <> [] /\ no_space f = true) (entry_fields e))
              tree.
Proof.
  intros Hbin Hrun Hsplit Hres.
  destruct (exit0_payload p w path out err Hbin Hrun kwargs Hres) as [recs [Hrecs ->]].
  exists (insert_records recs []). split; [reflexivity|].
  apply insert_records_Forall; [|constructor].
  intros r Hr. destruct (records_of_sound _ _ _ Hrecs r Hr) as [l [_ Hs]].
  rewrite Hsplit in Hs. cbn [str_split] in Hs. injection Hs as Hs.
  cbn [entry_of entry_fields]. rewrite <- Hs.
  apply split_ws_from_clean. reflexivity.
Qed.

Lemma whitespace_fields_clean_witness :
  exists tree,
    [(k_collection, VBool true);
     (KStr (lit "getent_services"), VDict [(KStr (lit "http"), VList [lit "80/tcp"; lit "www"])])]
    = [(k_collection, VBool true); (KStr (lit "getent_services"), VDict tree)]
    /\ Forall (fun e => Forall (fun f => f <> [] /\ no_space f = true) (entry_fields e))
              tree.
Proof.
  exact (whitespace_fields_clean
           {| database := lit "services"; key := Some (lit "http"); split := None;
              fail_key := true |}
           (fixed_world (BinFound (lit "/usr/bin/getent"))
                        (Ran 0 (lit "http   80/tcp  www " ++ [LF]) []))
           (lit "/usr/bin/getent") _ [] _ eq_refl eq_refl eq_refl eq_refl).
Defined.

(** X6. On exit code 0 with a separator of one character [c] the module
    always ends through [exit_json]; no key and no value of the mapping
    holds [c], and a line in which [c] occurs n times gives n values. *)
Theorem char_separator_fields (p : params) (w : world) (path out err : str) (c : char) :
  get_bin_path w (lit "getent") = BinFound path ->
  run_command w (cmd_of path p) = Ran 0 out err ->
  effective_split p = Some [c] ->
  let tree := insert_records (map (fields_of [c]) (splitlines out)) [] in
  result_of p w =
  ExitJson [(k_collection, VBool true); (KStr (dbtree_of (database p)), VDict tree)]
  /\ Forall (fun e => Forall (fun f => ~ In c f) (entry_fields e)) tree
  /\ forall line, List.length (snd (fields_of [c] line)) = count_char c line.
Proof.
  intros Hbin Hrun Hsplit tree. split; [|split].
  - rewrite (result_of_exit0 p w path out err Hbin Hrun), Hsplit.
    rewrite records_of_sep by discriminate. reflexivity.
  - apply insert_records_Forall; [|constructor].
    intros r Hr. apply in_map_iff in Hr. destruct Hr as [line [<- _]].
    unfold fields_of. cbn [entry_of entry_fields fst snd].
    pose proof (split_sep_char_clean c line) as H.
    destruct (split_sep [c] line) as [|f fs]; [|exact H].
    constructor; [tauto | constructor].
  - intros line. unfold fields_of. cbn [snd].
    pose proof (split_sep_char_count c line) as H.
    destruct (split_sep [c] line); simpl in *; lia.
Qed.

Lemma char_separator_fields_witness :
  result_of {| database := lit "passwd"; key := None; split := None; fail_key := true |}
            (fixed_world (BinFound (lit "/usr/bin/getent"))
                         (Ran 0 (lit "root:x:0::" ++ [LF]) []))
  = ExitJson [(k_collection, VBool true);
              (KStr (lit "getent_passwd"),
               VDict [(KStr (lit "root"), VList [lit "x"; lit "0"; lit ""; lit ""])])].
Proof.
  exact (proj1 (char_separator_fields
                  {| database := lit "passwd"; key := None; split := None; fail_key := true |}
                  (fixed_world (BinFound (lit "/usr/bin/getent"))
                               (Ran 0 (lit "root:x:0::" ++ [LF]) []))
                  (lit "/usr/bin/getent") _ [] 58%N eq_refl eq_refl eq_refl)).
Defined.

(** X7. When the executable is found the module gives exactly one command
    to [run_command], whatever comes of it: the path, the database and,
    when a key was given (the empty string included), the key.  [split] and
    [fail_key] never reach the command line. *)
Theorem one_command_spawned (p : params) (w : world) (path : str) :
  get_bin_path w (lit "getent") = BinFound path ->
  spawned p w =
  [path :: database p :: match key p with Some k => [k] | None => [] end].
Proof.
  intros Hbin. unfold spawned, main. rewrite Hbin.
  destruct (run_command w (cmd_of path p)); unfold cmd_of;
    destruct (key p); reflexivity.
Qed.

Lemma one_command_spawned_witness :
  spawned {| database := lit "passwd"; key := Some []; split := Some (lit ",");
             fail_key := false |}
          (fixed_world (BinFound (lit "/usr/bin/getent")) (Ran 2 [] []))
  = [[lit "/usr/bin/getent"; lit "passwd"; []]].
Proof.
  exact (one_command_spawned
           {| database := lit "passwd"; key := Some []; split := Some (lit ",");
              fail_key := false |}
           (fixed_world (BinFound (lit "/usr/bin/getent")) (Ran 2 [] []))
           (lit "/usr/bin/getent") eq_refl).
Defined.

(** X8. Round trip on the separator path.  Records with pairwise distinct
    keys, whose fields hold neither the one-character separator [c] nor a
    line break, written one per line with [c] between the fields, are
    returned as they were, in the same order. *)
Theorem char_records_round_trip (p : params) (w : world) (path err : str) (c : char)
        (recs : list (str * list str)) :
  get_bin_path w (lit "getent") = BinFound path ->
  effective_split p = Some [c] ->
  is_linebreak c = false ->
  NoDup (map fst recs) ->
  (forall r f, In r recs -> In f (fst r :: snd r) -> ~ In c f /\ no_linebreak f = true) ->
  run_command w (cmd_of path p) = Ran 0 (unlines (map (format_record [c]) recs)) err ->
  result_of p w =
  ExitJson [(k_collection, VBool true);
            (KStr (dbtree_of (database p)), VDict (map entry_of recs))].
Proof.
  intros Hbin Hsplit Hc Hnd Hfields Hrun.
  apply (written_records_read_back p w path err (format_record [c]) recs Hbin Hrun).
  - intros r Hr. unfold format_record. apply no_linebreak_join.
    + simpl. rewrite Hc. reflexivity.
    + apply Forall_forall. intros f Hf. apply (Hfields r f Hr Hf).
  - intros r Hr. rewrite Hsplit. unfold record_of, format_record. cbn [str_split bind].
    rewrite split_sep_char_join.
    + destruct r. reflexivity.
    + discriminate.
    + apply Forall_forall. intros f Hf. apply (Hfields r f Hr Hf).
  - exact Hnd.
Qed.

Lemma char_records_round_trip_witness :
  let recs := [(lit "root", [lit "x"; lit "0"; lit ""]); (lit "daemon", [lit "x"; lit "1"; lit ""])] in
  result_of {| database := lit "group"; key := None; split := None; fail_key := true |}
            (fixed_world (BinFound (lit "/usr/bin/getent"))
                         (Ran 0 (unlines (map (format_record (lit ":")) recs)) []))
  = ExitJson [(k_collection, VBool true);
              (KStr (lit "getent_group"), VDict (map entry_of recs))].
Proof.
  intros recs.
  apply (char_records_round_trip
           {| database := lit "group"; key := None; split := None; fail_key := true |}
           (fixed_world (BinFound (lit "/usr/bin/getent"))
                        (Ran 0 (unlines (map (format_record (lit ":")) recs)) []))
           (lit "/usr/bin/getent") [] 58%N recs eq_refl eq_refl eq_refl).
  - repeat constructor; simpl; intuition discriminate.
  - intros r f Hr Hf.
    assert (Hcheck : forallb (fun r => forallb (fun f => negb (existsb (N.eqb 58) f)
                                                        && no_linebreak f)
                                               (fst r :: snd r)) recs = true)
      by reflexivity.
    rewrite forallb_forall in Hcheck. specialize (Hcheck r Hr).
    rewrite forallb_forall in Hcheck. specialize (Hcheck f Hf).
    apply andb_true_iff in Hcheck. destruct Hcheck as [H1 H2].
    split; [|exact H2]. intros Hin. apply negb_true_iff in H1.
    assert (H3 : existsb (N.eqb 58) f = true).
    { apply existsb_exists. exists 58%N. split; [exact Hin | reflexivity]. }
    congruence.
  - reflexivity.
Defined.

(** X9. Round trip on the whitespace path.  Records with pairwise distinct
    keys, whose fields are not empty and hold no whitespace, written one
    per line with a whitespace character [c] that ends no line (a space, a
    tab) between the fields, are returned as they were, in the same
    order. *)
Theorem whitespace_records_round_trip (p : params) (w : world) (path err : str)
        (c : char) (recs : list (str * list str)) :
  get_bin_path w (lit "getent") = BinFound path ->
  effective_split p = None ->
  is_space c = true ->
  is_linebreak c = false ->
  NoDup (map fst recs) ->
  (forall r f, In r recs -> In f (fst r :: snd r) -> f <> [] /\ no_space f = true) ->
  run_command w (cmd_of path p) = Ran 0 (unlines (map (format_record [c]) recs)) err ->
  result_of p w =
  ExitJson [(k_collection, VBool true);
            (KStr (dbtree_of (database p)), VDict (map entry_of recs))].
Proof.
  intros Hbin Hsplit Hsp Hc Hnd Hfields Hrun.
  apply (written_records_read_back p w path err (format_record [c]) recs Hbin Hrun).
  - intros r Hr. unfold format_record. apply no_linebreak_join.
    + simpl. rewrite Hc. reflexivity.
    + apply Forall_forall. intros f Hf.
      apply no_space_no_linebreak, (Hfields r f Hr Hf).
  - intros r Hr. rewrite Hsplit. unfold record_of, format_record. cbn [str_split bind].
    rewrite (split_ws_join c (fst r :: snd r) Hsp).
    + destruct r. reflexivity.
    + apply Forall_forall. intros f Hf. apply (Hfields r f Hr Hf).
  - exact Hnd.
Qed.

Lemma whitespace_records_round_trip_witness :
  let recs := [(lit "127.0.0.1", [lit "localhost"]); (lit "10.0.0.1", [lit "gw"; lit "router"])] in
  result_of {| database := lit "hosts"; key := None; split := None; fail_key := true |}
            (fixed_world (BinFound (lit "/usr/bin/getent"))
                         (Ran 0 (unlines (map (format_record [9%N]) recs)) []))
  = ExitJson [(k_collection, VBool true);
              (KStr (lit "getent_hosts"), VDict (map entry_of recs))].
Proof.
  intros recs.
  apply (whitespace_records_round_trip
           {| database := lit "hosts"; key := None; split := None; fail_key := true |}
           (fixed_world (BinFound (lit "/usr/bin/getent"))
                        (Ran 0 (unlines (map (format_record [9%N]) recs)) []))
           (lit "/usr/bin/getent") [] 9%N recs eq_refl eq_refl eq_refl eq_refl).
  - repeat constructor; simpl; intuition discriminate.
  - intros r f Hr Hf.
    assert (Hcheck : forallb (fun r => forallb (fun f => negb (Str.eqb f []) && no_space f)
                                               (fst r :: snd r)) recs = true)
      by reflexivity.
    rewrite forallb_forall in Hcheck. specialize (Hcheck r Hr).
    rewrite forallb_forall in Hcheck. specialize (Hcheck f Hf).
    apply andb_true_iff in Hcheck. destruct Hcheck as [H1 H2].
    split; [|exact H2]. intros ->. discriminate H1.
  - reflexivity.
Defined.

(** X10. The module reports success only for exit code 0 or for exit code 2
    with [fail_key] false, and an exception escapes only on exit code 0 and
    is then [IndexError] or [ValueError]: the lookups of [results[dbtree]]
    never raise.  Every other run ends through [fail_json]. *)
Theorem success_only_on_0_or_tolerated_2 (p : params) (w : world) (path out err : str)
        (rc : Z) :
  get_bin_path w (lit "getent") = BinFound path ->
  run_command w (cmd_of path p) = Ran rc out err ->
  (forall kwargs, result_of p w = ExitJson kwargs ->
                  rc = 0%Z \/ (rc = 2%Z /\ fail_key p = false))
  /\ (forall e, result_of p w = Uncaught e ->
                rc = 0%Z /\ (e = IndexError \/ e = ValueError))
  /\ (rc <> 0%Z -> (rc = 2%Z -> fail_key p = true) ->
      exists msg, result_of p w = FailJson [(k_msg, VStr msg)]).
Proof.
  intros Hbin Hrun.
  assert (Hres : result_of p w = dispatch p rc out).
  { unfold result_of. rewrite (main_ran p w path Hbin rc out err Hrun). reflexivity. }
  rewrite Hres. clear Hres.
  destruct (Z.eq_dec rc 0) as [-> | H0].
  { rewrite dispatch_0. split; [|split].
    - intros kwargs _. left. reflexivity.
    - intros e He. split; [reflexivity|].
      destruct (records_of (effective_split p) (splitlines out)) as [recs|e'] eqn:E;
        [discriminate|].
      injection He as <-. exact (records_of_raise _ _ _ E).
    - intros H. exfalso. apply H. reflexivity. }
  destruct (Z.eq_dec rc 2) as [-> | H2].
  { rewrite dispatch_2. destruct (fail_key p); split; [| split | | split].
    - discriminate.
    - discriminate.
    - intros _ _. eexists. reflexivity.
    - intros kwargs _. right. split; reflexivity.
    - discriminate.
    - intros _ H. specialize (H eq_refl). discriminate. }
  rewrite dispatch_failure by assumption. split; [|split].
  - discriminate.
  - discriminate.
  - intros _ _. eexists. reflexivity.
Qed.

Lemma success_only_on_0_or_tolerated_2_witness :
  exists msg,
    result_of {| database := lit "ahosts"; key := None; split := None; fail_key := false |}
              (fixed_world (BinFound (lit "/usr/bin/getent")) (Ran 3 [] []))
    = FailJson [(k_msg, VStr msg)].
Proof.
  apply (proj2 (proj2 (success_only_on_0_or_tolerated_2
                         {| database := lit "ahosts"; key := None; split := None;
                            fail_key := false |}
                         (fixed_world (BinFound (lit "/usr/bin/getent")) (Ran 3 [] []))
                         (lit "/usr/bin/getent") [] [] 3 eq_refl eq_refl))).
  - discriminate.
  - discriminate.
Defined.

(* ===================================================================== *)
(** ** The separator the module splits on *)
(* ===================================================================== *)

(** C4. With no [split] given, the separator in force is ":" exactly when
    the database is one of passwd, shadow, group and gshadow.  On a run
    that reads the output (exit code 0) the module then stores, for such a
    database, the records of the lines cut at ":"; for every other database
    no separator is set, each line is cut into its whitespace-separated
    fields, and the module stores those records (or stops at a line that
    has none). *)
Theorem default_separator (p : params) :
  split p = None ->
  (effective_split p = Some (lit ":") <-> In (database p) colon)
  /\ forall (w : world) (path out err : str),
      get_bin_path w (lit "getent") = BinFound path ->
      run_command w (cmd_of path p) = Ran 0 out err ->
      (In (database p) colon ->
       result_of p w =
       ExitJson [(k_collection, VBool true);
                 (KStr (dbtree_of (database p)),
                  VDict (insert_records (map (fields_of (lit ":")) (splitlines out)) []))])
      /\ (~ In (database p) colon ->
          effective_split p = None
          /\ (forall line, str_split line (effective_split p) = Ok (split_ws line))
          /\ result_of p w =
             if existsb is_blank (splitlines out) then Uncaught IndexError
             else ExitJson [(k_collection, VBool true);
                            (KStr (dbtree_of (database p)),
                             VDict (insert_records (map ws_fields_of (splitlines out)) []))]).
Proof.
  intros Hsplit.
  assert (Heff : effective_split p =
                 if str_in (database p) colon then Some (lit ":") else None).
  { unfold effective_split. rewrite Hsplit. reflexivity. }
  split.
  - rewrite Heff. destruct (str_in (database p) colon) eqn:E.
    + apply str_in_In in E. tauto.
    + split; [discriminate|]. intros Hin. apply str_in_In in Hin. congruence.
  - intros w path out err Hbin Hrun.
    rewrite (result_of_exit0 p w path out err Hbin Hrun), Heff. split.
    + intros Hin. apply str_in_In in Hin. rewrite Hin.
      rewrite records_of_sep by discriminate. reflexivity.
    + intros Hout.
      assert (E : str_in (database p) colon = false).
      { destruct (str_in (database p) colon) eqn:E; [|reflexivity].
        apply str_in_In in E. tauto. }
      rewrite E. split; [reflexivity|]. split; [reflexivity|].
      rewrite records_of_ws.
      destruct (existsb is_blank (splitlines out)); reflexivity.
Qed.

(** The same line under the two rules: for hosts the ":" stays in the key,
    for shadow it cuts the line and the space stays in the value. *)
Lemma default_separator_witness :
  result_of {| database := lit "hosts"; key := None; split := None; fail_key := true |}
            (fixed_world (BinFound (lit "/usr/bin/getent"))
                         (Ran 0 (lit "root:x gw" ++ [LF]) []))
  = ExitJson [(k_collection, VBool true);
              (KStr (lit "getent_hosts"), VDict [(KStr (lit "root:x"), VList [lit "gw"])])]
  /\ result_of {| database := lit "shadow"; key := None; split := None; fail_key := true |}
               (fixed_world (BinFound (lit "/usr/bin/getent"))
                            (Ran 0 (lit "root:x gw" ++ [LF]) []))
     = ExitJson [(k_collection, VBool true);
                 (KStr (lit "getent_shadow"), VDict [(KStr (lit "root"), VList [lit "x gw"])])].
Proof.
  split.
  - refine (proj2 (proj2 (proj2 (proj2 (default_separator
              {| database := lit "hosts"; key := None; split := None; fail_key := true |}
              eq_refl)
            (fixed_world (BinFound (lit "/usr/bin/getent"))
                         (Ran 0 (lit "root:x gw" ++ [LF]) []))
            (lit "/usr/bin/getent") (lit "root:x gw" ++ [LF]) [] eq_refl eq_refl) _))).
    simpl. intros [H|[H|[H|[H|[]]]]]; discriminate H.
  - refine (proj1 (proj2 (default_separator
              {| database := lit "shadow"; key := None; split := None; fail_key := true |}
              eq_refl)
            (fixed_world (BinFound (lit "/usr/bin/getent"))
                         (Ran 0 (lit "root:x gw" ++ [LF]) []))
            (lit "/usr/bin/getent") (lit "root:x gw" ++ [LF]) [] eq_refl eq_refl) _).
    simpl. tauto.
Defined.
